(** * ICM42688 raw-sample converters (drivers/sensor/icm42688/icm42688.h)

    A shallow embedding of the five [static inline] converters of the
    driver header and of the C integer arithmetic they are written in,
    followed by the properties of the conversion engine.

    Conventions.
    - A C integer is a [Z]; the width of its type is applied by the
      operation that produces it.  [int] is 32 bits wide, as on every
      target of the driver, so [int32_t] and [int] arithmetic coincide.
    - Signed overflow and division by zero have no defined result in C.
      Both are faults of the model.  For overflow the model is parametric
      in [overflow_semantics]: [Undefined] stops with [SignedOverflow],
      [Wraps] continues with the two's complement result the compiled
      code produces.
    - The converters write through [out] pointers and read them back; the
      store holds the configuration record and the two output cells, which
      are taken to be distinct objects. *)

From Stdlib Require Import ZArith Bool List Lia.
Import ListNotations.

Local Open Scope Z_scope.

(** ** C integer arithmetic *)

Module CInt.

Definition INT32_MIN : Z := -2147483648.
Definition INT32_MAX : Z := 2147483647.
Definition INT64_MIN : Z := -9223372036854775808.
Definition INT64_MAX : Z := 9223372036854775807.
Definition UINT32_MAX : Z := 4294967295.

Inductive fault : Set :=
| DivisionByZero
| SignedOverflow.

Inductive result (A : Type) : Type :=
| Ok (a : A)
| Fault (f : fault).
Arguments Ok {A} a.
Arguments Fault {A} f.

Inductive overflow_semantics : Set :=
| Undefined
| Wraps.

Definition in_int32 (z : Z) : bool := (INT32_MIN <=? z) && (z <=? INT32_MAX).
Definition in_int64 (z : Z) : bool := (INT64_MIN <=? z) && (z <=? INT64_MAX).

(** Reduction of a mathematical integer to a two's complement value. *)
Definition wrap32 (z : Z) : Z := (z + 2147483648) mod 4294967296 - 2147483648.
Definition wrap64 (z : Z) : Z :=
  (z + 9223372036854775808) mod 18446744073709551616 - 9223372036854775808.

(** Conversions on assignment: to [int32_t] (modular on the driver's
    compilers) and to [uint32_t] (modular by the C standard). *)
Definition cast_int32 (z : Z) : Z := wrap32 z.
Definition cast_uint32 (z : Z) : Z := z mod 4294967296.

Section Arith.
Variable sem : overflow_semantics.

(** The result of a signed operation whose exact value is [z]. *)
Definition signed32 (z : Z) : result Z :=
  if in_int32 z then Ok z
  else match sem with
       | Undefined => Fault SignedOverflow
       | Wraps => Ok (wrap32 z)
       end.

Definition signed64 (z : Z) : result Z :=
  if in_int64 z then Ok z
  else match sem with
       | Undefined => Fault SignedOverflow
       | Wraps => Ok (wrap64 z)
       end.

Definition mul32 (a b : Z) : result Z := signed32 (a * b).
Definition sub32 (a b : Z) : result Z := signed32 (a - b).
Definition add32 (a b : Z) : result Z := signed32 (a + b).
(** [/] on [int]: truncation toward zero. *)
Definition div32 (a b : Z) : result Z :=
  if b =? 0 then Fault DivisionByZero else signed32 (Z.quot a b).
(** [abs] of <stdlib.h>. *)
Definition abs32 (a : Z) : result Z := signed32 (Z.abs a).

Definition mul64 (a b : Z) : result Z := signed64 (a * b).
Definition sub64 (a b : Z) : result Z := signed64 (a - b).
Definition div64 (a b : Z) : result Z :=
  if b =? 0 then Fault DivisionByZero else signed64 (Z.quot a b).
(** [llabs] of <stdlib.h>. *)
Definition llabs (a : Z) : result Z := signed64 (Z.abs a).
End Arith.

End CInt.
Import CInt.

(** ** Data model *)

(** [enum icm42688_accel_mode] *)
Inductive icm42688_accel_mode : Set :=
| ICM42688_ACCEL_OFF     (* 0 *)
| ICM42688_ACCEL_LP      (* 2 *)
| ICM42688_ACCEL_LN.     (* 3 *)

(** [enum icm42688_gyro_mode] *)
Inductive icm42688_gyro_mode : Set :=
| ICM42688_GYRO_OFF      (* 0 *)
| ICM42688_GYRO_STANDBY  (* 1 *)
| ICM42688_GYRO_LN.      (* 3 *)

(** [enum icm42688_accel_fs].  A C enumeration object can hold any value of
    its integer type, and the converters switch on the stored value, so the
    full-scale selectors are kept as the integers they are, with the
    enumerators as named constants. *)
Definition icm42688_accel_fs : Set := Z.
Definition ICM42688_ACCEL_FS_16G : icm42688_accel_fs := 0.
Definition ICM42688_ACCEL_FS_8G : icm42688_accel_fs := 1.
Definition ICM42688_ACCEL_FS_4G : icm42688_accel_fs := 2.
Definition ICM42688_ACCEL_FS_2G : icm42688_accel_fs := 3.

(** [enum icm42688_gyro_fs] *)
Definition icm42688_gyro_fs : Set := Z.
Definition ICM42688_GYRO_FS_2000 : icm42688_gyro_fs := 0.
Definition ICM42688_GYRO_FS_1000 : icm42688_gyro_fs := 1.
Definition ICM42688_GYRO_FS_500 : icm42688_gyro_fs := 2.
Definition ICM42688_GYRO_FS_250 : icm42688_gyro_fs := 3.
Definition ICM42688_GYRO_FS_125 : icm42688_gyro_fs := 4.
Definition ICM42688_GYRO_FS_62_5 : icm42688_gyro_fs := 5.
Definition ICM42688_GYRO_FS_31_25 : icm42688_gyro_fs := 6.
Definition ICM42688_GYRO_FS_15_625 : icm42688_gyro_fs := 7.

(** [enum icm42688_accel_odr], numbered from 1 in this order. *)
Inductive icm42688_accel_odr : Set :=
| ICM42688_ACCEL_ODR_32000
| ICM42688_ACCEL_ODR_16000
| ICM42688_ACCEL_ODR_8000
| ICM42688_ACCEL_ODR_4000
| ICM42688_ACCEL_ODR_2000
| ICM42688_ACCEL_ODR_1000
| ICM42688_ACCEL_ODR_200
| ICM42688_ACCEL_ODR_100
| ICM42688_ACCEL_ODR_50
| ICM42688_ACCEL_ODR_25
| ICM42688_ACCEL_ODR_12_5
| ICM42688_ACCEL_ODR_6_25
| ICM42688_ACCEL_ODR_3_125
| ICM42688_ACCEL_ODR_1_5625
| ICM42688_ACCEL_ODR_500.

(** [enum icm42688_gyro_odr], numbered from 1 in this order, the last
    one being 0xF. *)
Inductive icm42688_gyro_odr : Set :=
| ICM42688_GYRO_ODR_32000
| ICM42688_GYRO_ODR_16000
| ICM42688_GYRO_ODR_8000
| ICM42688_GYRO_ODR_4000
| ICM42688_GYRO_ODR_2000
| ICM42688_GYRO_ODR_1000
| ICM42688_GYRO_ODR_200
| ICM42688_GYRO_ODR_100
| ICM42688_GYRO_ODR_50
| ICM42688_GYRO_ODR_25
| ICM42688_GYRO_ODR_12_5
| ICM42688_GYRO_ODR_500.

(** [struct icm42688_cfg] *)
Record icm42688_cfg : Set := {
  accel_mode : icm42688_accel_mode;
  accel_fs : icm42688_accel_fs;
  accel_odr : icm42688_accel_odr;
  gyro_mode : icm42688_gyro_mode;
  gyro_fs : icm42688_gyro_fs;
  gyro_odr : icm42688_gyro_odr;
  temp_dis : bool;
  fifo_en : bool;
  fifo_wm : Z;
  fifo_hires : bool
}.

(** The selector holds one of the enumerators. *)
Definition accel_fs_enumerated (fs : icm42688_accel_fs) : bool :=
  (fs =? ICM42688_ACCEL_FS_16G) || (fs =? ICM42688_ACCEL_FS_8G)
  || (fs =? ICM42688_ACCEL_FS_4G) || (fs =? ICM42688_ACCEL_FS_2G).

Definition gyro_fs_enumerated (fs : icm42688_gyro_fs) : bool :=
  (fs =? ICM42688_GYRO_FS_2000) || (fs =? ICM42688_GYRO_FS_1000)
  || (fs =? ICM42688_GYRO_FS_500) || (fs =? ICM42688_GYRO_FS_250)
  || (fs =? ICM42688_GYRO_FS_125) || (fs =? ICM42688_GYRO_FS_62_5)
  || (fs =? ICM42688_GYRO_FS_31_25) || (fs =? ICM42688_GYRO_FS_15_625).

(** A configuration whose two full-scale fields hold enumerators. *)
Definition cfg_in_range (cfg : icm42688_cfg) : bool :=
  accel_fs_enumerated (accel_fs cfg) && gyro_fs_enumerated (gyro_fs cfg).

(** A raw sample: a signed 16-bit value widened to [int32_t]. *)
Definition raw_sample (r : Z) : Prop := -32768 <= r <= 32767.

(** ** The store and the monad of the converters *)

(** What a converter call can reach: the record behind [cfg] and the cells
    behind the two output pointers. *)
Record store : Set := {
  st_cfg : icm42688_cfg;
  st_whole : Z;   (* the int32_t cell: out_g, out_dps, out_ms, out_rads, out_c *)
  st_frac : Z     (* the uint32_t cell: out_ug, out_udps, out_ums, out_urads, out_uc *)
}.

Definition M (A : Type) : Type := store -> result (A * store).

Definition ret {A} (a : A) : M A := fun s => Ok (a, s).

Definition bind {A B} (m : M A) (k : A -> M B) : M B :=
  fun s => match m s with
           | Ok (a, s') => k a s'
           | Fault f => Fault f
           end.

Notation "x <- m ;; k" := (bind m (fun x => k))
  (at level 61, m at next level, right associativity).
Notation "m ;;; k" := (bind m (fun _ => k))
  (at level 61, right associativity).

(** An arithmetic step: the store is untouched, a fault stops the call. *)
Definition eval {A} (r : result A) : M A :=
  fun s => match r with
           | Ok a => Ok (a, s)
           | Fault f => Fault f
           end.

(** [cfg->field] *)
Definition load_cfg {A} (field : icm42688_cfg -> A) : M A :=
  fun s => Ok (field (st_cfg s), s).

(** [*out = v] on the [int32_t] cell. *)
Definition store_whole (v : Z) : M unit :=
  fun s => Ok (tt, {| st_cfg := st_cfg s; st_whole := cast_int32 v; st_frac := st_frac s |}).

(** [*out] read from the [int32_t] cell. *)
Definition load_whole : M Z := fun s => Ok (st_whole s, s).

(** [*out = v] on the [uint32_t] cell. *)
Definition store_frac (v : Z) : M unit :=
  fun s => Ok (tt, {| st_cfg := st_cfg s; st_whole := st_whole s; st_frac := cast_uint32 v |}).

(** The (whole, fractional) pair a finished call leaves in the output cells. *)
Definition outputs (r : result (unit * store)) : result (Z * Z) :=
  match r with
  | Ok (_, s) => Ok (st_whole s, st_frac s)
  | Fault f => Fault f
  end.

(** ** Sensitivity lookups

    Each converter starts with [sensitivity = 0] and a [switch] over the
    full-scale field that has one [case] per enumerator and no [default]. *)

(** The [switch] of [icm42688_accel_g]. *)
Definition accel_g_sensitivity (fs : icm42688_accel_fs) : Z :=
  if fs =? ICM42688_ACCEL_FS_2G then 16384
  else if fs =? ICM42688_ACCEL_FS_4G then 8192
  else if fs =? ICM42688_ACCEL_FS_8G then 4096
  else if fs =? ICM42688_ACCEL_FS_16G then 2048
  else 0.

(** The [switch] of [icm42688_gyro_dps]. *)
Definition gyro_dps_sensitivity (fs : icm42688_gyro_fs) : Z :=
  if fs =? ICM42688_GYRO_FS_2000 then 164
  else if fs =? ICM42688_GYRO_FS_1000 then 328
  else if fs =? ICM42688_GYRO_FS_500 then 655
  else if fs =? ICM42688_GYRO_FS_250 then 1310
  else if fs =? ICM42688_GYRO_FS_125 then 2620
  else if fs =? ICM42688_GYRO_FS_62_5 then 5243
  else if fs =? ICM42688_GYRO_FS_31_25 then 10486
  else if fs =? ICM42688_GYRO_FS_15_625 then 20972
  else 0.

(** The [switch] of [icm42688_accel_ms]. *)
Definition accel_ms_sensitivity (fs : icm42688_accel_fs) : Z :=
  if fs =? ICM42688_ACCEL_FS_2G then 16384
  else if fs =? ICM42688_ACCEL_FS_4G then 8192
  else if fs =? ICM42688_ACCEL_FS_8G then 4096
  else if fs =? ICM42688_ACCEL_FS_16G then 2048
  else 0.

(** The [switch] of [icm42688_gyro_rads]. *)
Definition gyro_rads_sensitivity (fs : icm42688_gyro_fs) : Z :=
  if fs =? ICM42688_GYRO_FS_2000 then 164
  else if fs =? ICM42688_GYRO_FS_1000 then 328
  else if fs =? ICM42688_GYRO_FS_500 then 655
  else if fs =? ICM42688_GYRO_FS_250 then 1310
  else if fs =? ICM42688_GYRO_FS_125 then 2620
  else if fs =? ICM42688_GYRO_FS_62_5 then 5243
  else if fs =? ICM42688_GYRO_FS_31_25 then 10486
  else if fs =? ICM42688_GYRO_FS_15_625 then 20972
  else 0.

(** ** The converters *)

(** Modelled from the spec: the macro [SENSOR_G] of <zephyr/drivers/sensor.h>,
    which is not part of the header: standard gravity, 9.80665 m/s^2, as an
    integer in micro-units, of a 64-bit type so that its product with a raw
    value is formed in 64 bits. *)
Definition SENSOR_G : Z := 9806650.

Section Converters.

Variable sem : overflow_semantics.

(** The macro [SENSOR_PI] of <zephyr/drivers/sensor.h>, which is not part
    of the header either: pi scaled to an integer.  It is a parameter of
    the rad/s converter. *)
Variable SENSOR_PI : Z.

(** [icm42688_accel_g(cfg, in, out_g, out_ug)] *)
Definition icm42688_accel_g (in_ : Z) : M unit :=
  fs <- load_cfg accel_fs ;;
  let sensitivity := accel_g_sensitivity fs in
  (* Whole g's *)
  q <- eval (div32 sem in_ sensitivity) ;;
  store_whole q ;;;
  (* Micro g's *)
  a <- eval (abs32 sem in_) ;;
  g <- load_whole ;;
  b <- eval (abs32 sem g) ;;
  p <- eval (mul32 sem b sensitivity) ;;
  d <- eval (sub32 sem a p) ;;
  m <- eval (mul32 sem d 1000000) ;;
  u <- eval (div32 sem m sensitivity) ;;
  store_frac u.

(** [icm42688_gyro_dps(cfg, in, out_dps, out_udps)] *)
Definition icm42688_gyro_dps (in_ : Z) : M unit :=
  fs <- load_cfg gyro_fs ;;
  let sensitivity := gyro_dps_sensitivity fs in
  in10 <- eval (mul32 sem in_ 10) ;;
  (* Whole deg/s *)
  q <- eval (div64 sem in10 sensitivity) ;;
  store_whole q ;;;
  (* Micro deg/s *)
  a <- eval (llabs sem in10) ;;
  w <- load_whole ;;
  b <- eval (llabs sem w) ;;
  p <- eval (mul64 sem b sensitivity) ;;
  d <- eval (sub64 sem a p) ;;
  m <- eval (mul64 sem d 1000000) ;;
  u <- eval (div64 sem m sensitivity) ;;
  store_frac u.

(** [icm42688_accel_ms(cfg, in, out_ms, out_ums)] *)
Definition icm42688_accel_ms (in_ : Z) : M unit :=
  fs <- load_cfg accel_fs ;;
  let sensitivity := accel_ms_sensitivity fs in
  (* Convert to micrometers/s^2 *)
  in_ms <- eval (mul64 sem in_ SENSOR_G) ;;
  (* meters/s^2 whole values *)
  den <- eval (mul64 sem sensitivity 1000000) ;;
  q <- eval (div64 sem in_ms den) ;;
  store_whole q ;;;
  (* micrometers/s^2 *)
  a <- eval (llabs sem in_ms) ;;
  w <- load_whole ;;
  b <- eval (llabs sem w) ;;
  p <- eval (mul64 sem b sensitivity) ;;
  p' <- eval (mul64 sem p 1000000) ;;
  d <- eval (sub64 sem a p') ;;
  u <- eval (div64 sem d sensitivity) ;;
  store_frac u.

(** [icm42688_gyro_rads(cfg, in, out_rads, out_urads)] *)
Definition icm42688_gyro_rads (in_ : Z) : M unit :=
  fs <- load_cfg gyro_fs ;;
  let sensitivity := gyro_rads_sensitivity fs in
  t <- eval (mul64 sem in_ SENSOR_PI) ;;
  in10_rads <- eval (mul64 sem t 10) ;;
  (* Whole rad/s *)
  den180 <- eval (mul64 sem sensitivity 180) ;;
  den <- eval (mul64 sem den180 1000000) ;;
  q <- eval (div64 sem in10_rads den) ;;
  store_whole q ;;;
  (* microrad/s *)
  a <- eval (llabs sem in10_rads) ;;
  w <- load_whole ;;
  b <- eval (llabs sem w) ;;
  p <- eval (mul64 sem b sensitivity) ;;
  p' <- eval (mul64 sem p 180) ;;
  p'' <- eval (mul64 sem p' 1000000) ;;
  d <- eval (sub64 sem a p'') ;;
  s180 <- eval (mul64 sem sensitivity 180) ;;
  u <- eval (div64 sem d s180) ;;
  store_frac u.

(** [icm42688_temp_c(in, out_c, out_uc)] *)
Definition icm42688_temp_c (in_ : Z) : M unit :=
  let sensitivity := 13248 in
  in100 <- eval (mul32 sem in_ 100) ;;
  (* Whole celsius *)
  q <- eval (div64 sem in100 sensitivity) ;;
  store_whole q ;;;
  (* Micro celsius *)
  a <- eval (llabs sem in100) ;;
  w <- load_whole ;;
  b <- eval (llabs sem w) ;;
  p <- eval (mul64 sem b sensitivity) ;;
  d <- eval (sub64 sem a p) ;;
  m <- eval (mul64 sem d 1000000) ;;
  u <- eval (div64 sem m sensitivity) ;;
  store_frac u ;;;
  (* Shift whole celsius 25 degress *)
  c <- load_whole ;;
  c25 <- eval (add32 sem c 25) ;;
  store_whole c25.

End Converters.

(** A store for concrete runs: the given selectors, everything else off and
    the output cells holding leftovers. *)
Definition store_with (afs : icm42688_accel_fs) (gfs : icm42688_gyro_fs) : store :=
  {| st_cfg := {| accel_mode := ICM42688_ACCEL_LN; accel_fs := afs;
                  accel_odr := ICM42688_ACCEL_ODR_1000;
                  gyro_mode := ICM42688_GYRO_LN; gyro_fs := gfs;
                  gyro_odr := ICM42688_GYRO_ODR_1000;
                  temp_dis := false; fifo_en := false; fifo_wm := 0;
                  fifo_hires := false |};
     st_whole := -7;
     st_frac := 7 |}.

(** A second store with the same selectors as [store_with 3 0] and
    everything else different. *)
Definition store_other : store :=
  {| st_cfg := {| accel_mode := ICM42688_ACCEL_OFF; accel_fs := ICM42688_ACCEL_FS_2G;
                  accel_odr := ICM42688_ACCEL_ODR_50;
                  gyro_mode := ICM42688_GYRO_STANDBY; gyro_fs := ICM42688_GYRO_FS_2000;
                  gyro_odr := ICM42688_GYRO_ODR_25;
                  temp_dis := true; fifo_en := true; fifo_wm := 512;
                  fifo_hires := true |};
     st_whole := 123456;
     st_frac := 654321 |}.

(** A value of the signed 64-bit range. *)
Definition fits_int64 (z : Z) : Prop := INT64_MIN <= z <= INT64_MAX.

(** A computation that hands the configuration record back as it found it. *)
Definition keeps_cfg {A} (m : M A) : Prop :=
  forall s a s', m s = Ok (a, s') -> st_cfg s' = st_cfg s.

(** ** Integer facts behind the whole/fractional split *)

Lemma quot_abs_le (a s : Z) : 0 < s -> Z.abs (Z.quot a s) <= Z.abs a.
Proof.
  intros Hs.
  rewrite <- Z.quot_abs, (Z.abs_eq s) by lia.
  apply Z.quot_le_upper_bound; [lia|].
  nia.
Qed.

Lemma quot_between (a s lo hi : Z) :
  0 < s -> lo <= 0 <= hi -> lo <= a <= hi -> lo <= Z.quot a s <= hi.
Proof.
  intros Hs Hz Ha.
  pose proof (quot_abs_le a s Hs) as Hq.
  destruct (Z.le_ge_cases 0 a) as [Hpos|Hneg].
  - pose proof (Z.quot_pos a s Hpos Hs). lia.
  - assert (Z.quot a s <= 0) by (apply Z.quot_le_upper_bound; lia). lia.
Qed.

Lemma abs_remainder (a s : Z) :
  0 < s -> Z.abs a - Z.abs (Z.quot a s) * s = Z.rem (Z.abs a) s.
Proof.
  intros Hs.
  rewrite <- Z.quot_abs, (Z.abs_eq s) by lia.
  pose proof (Z.quot_rem' (Z.abs a) s) as E.
  lia.
Qed.

Lemma abs_remainder_range (a s : Z) :
  0 < s -> 0 <= Z.abs a - Z.abs (Z.quot a s) * s < s.
Proof.
  intros Hs. rewrite abs_remainder by assumption.
  apply Z.rem_bound_pos; lia.
Qed.

Lemma micro_of_remainder (d s : Z) :
  0 < s -> 0 <= d < s -> 0 <= Z.quot (d * 1000000) s < 1000000.
Proof.
  intros Hs Hd. split.
  - apply Z.quot_pos; lia.
  - apply Z.quot_lt_upper_bound; lia.
Qed.

Lemma micro_of_scaled_remainder (d s : Z) :
  0 < s -> 0 <= d < s * 1000000 -> 0 <= Z.quot d s < 1000000.
Proof.
  intros Hs Hd. split.
  - apply Z.quot_pos; lia.
  - apply Z.quot_lt_upper_bound; lia.
Qed.

(** ** Facts on the C operations *)

Section ArithFacts.

Variable sem : overflow_semantics.

Lemma signed32_ok z : INT32_MIN <= z <= INT32_MAX -> signed32 sem z = Ok z.
Proof.
  intros [Hl Hu]. unfold signed32, in_int32.
  apply Z.leb_le in Hl. apply Z.leb_le in Hu. now rewrite Hl, Hu.
Qed.

Lemma signed64_ok z : INT64_MIN <= z <= INT64_MAX -> signed64 sem z = Ok z.
Proof.
  intros [Hl Hu]. unfold signed64, in_int64.
  apply Z.leb_le in Hl. apply Z.leb_le in Hu. now rewrite Hl, Hu.
Qed.

Lemma signed32_no_div0 z : signed32 sem z <> Fault DivisionByZero.
Proof. unfold signed32. destruct (in_int32 z), sem; discriminate. Qed.

Lemma div32_nonzero a b : b <> 0 -> div32 sem a b = signed32 sem (Z.quot a b).
Proof. intros Hb. unfold div32. apply Z.eqb_neq in Hb. now rewrite Hb. Qed.

Lemma div64_nonzero a b : b <> 0 -> div64 sem a b = signed64 sem (Z.quot a b).
Proof. intros Hb. unfold div64. apply Z.eqb_neq in Hb. now rewrite Hb. Qed.

End ArithFacts.

Lemma cast_int32_id z : INT32_MIN <= z <= INT32_MAX -> cast_int32 z = z.
Proof.
  unfold cast_int32, wrap32, INT32_MIN, INT32_MAX. intros H.
  rewrite Z.mod_small; lia.
Qed.

Lemma cast_uint32_id z : 0 <= z <= UINT32_MAX -> cast_uint32 z = z.
Proof.
  unfold cast_uint32, UINT32_MAX. intros H. apply Z.mod_small. lia.
Qed.

Lemma wrap32_range z : INT32_MIN <= wrap32 z <= INT32_MAX.
Proof.
  unfold wrap32, INT32_MIN, INT32_MAX.
  pose proof (Z.mod_pos_bound (z + 2147483648) 4294967296). lia.
Qed.

Lemma signed32_Wraps_eq z : signed32 Wraps z = Ok (wrap32 z).
Proof.
  unfold signed32. destruct (in_int32 z) eqn:E; [|reflexivity].
  unfold in_int32 in E. apply andb_true_iff in E as [Hl Hu].
  apply Z.leb_le in Hl. apply Z.leb_le in Hu.
  now rewrite <- (cast_int32_id z) at 1 by lia.
Qed.

(** ** One step of a converter *)

Section Steps.

Context {A B : Type}.

Lemma bind_eval (r : result A) (k : A -> M B) s :
  (x <- eval r ;; k x) s = match r with Ok a => k a s | Fault f => Fault f end.
Proof. unfold bind, eval. now destruct r. Qed.

Lemma bind_eval_ok (r : result A) (a : A) (k : A -> M B) s :
  r = Ok a -> (x <- eval r ;; k x) s = k a s.
Proof. intros ->. reflexivity. Qed.

Lemma bind_eval_fault (r : result A) (f : fault) (k : A -> M B) s :
  r = Fault f -> (x <- eval r ;; k x) s = Fault f.
Proof. intros ->. reflexivity. Qed.

Lemma bind_load_cfg (field : icm42688_cfg -> A) (k : A -> M B) s :
  (x <- load_cfg field ;; k x) s = k (field (st_cfg s)) s.
Proof. reflexivity. Qed.

End Steps.

Lemma bind_store_whole {B} (v : Z) (k : M B) s :
  (store_whole v ;;; k) s
  = k {| st_cfg := st_cfg s; st_whole := cast_int32 v; st_frac := st_frac s |}.
Proof. reflexivity. Qed.

Lemma bind_store_frac {B} (v : Z) (k : M B) s :
  (store_frac v ;;; k) s
  = k {| st_cfg := st_cfg s; st_whole := st_whole s; st_frac := cast_uint32 v |}.
Proof. reflexivity. Qed.

Lemma bind_load_whole {B} (k : Z -> M B) s :
  (x <- load_whole ;; k x) s = k (st_whole s) s.
Proof. reflexivity. Qed.

(** ** Runs of the converters on raw samples *)

Ltac int_range :=
  unfold INT32_MIN, INT32_MAX, INT64_MIN, INT64_MAX, UINT32_MAX in *; lia.

(** Discharge one arithmetic step whose exact value is representable. *)
Ltac step_ok :=
  erewrite bind_eval_ok;
  [ | unfold mul32, sub32, add32, abs32, mul64, sub64, llabs;
      rewrite ?div32_nonzero, ?div64_nonzero by lia;
      first [ apply signed32_ok | apply signed64_ok ]; int_range ].

Ltac step_mem :=
  rewrite ?bind_load_cfg, ?bind_load_whole, ?bind_store_whole, ?bind_store_frac;
  cbn [st_cfg st_whole st_frac].

(** Run a converter to its end when no step leaves its type's range. *)
Ltac run_ops :=
  repeat first [ progress step_mem
               | step_ok
               | rewrite cast_int32_id by int_range ].

Ltac run_steps :=
  run_ops;
  unfold store_frac, store_whole; cbn [st_cfg st_whole st_frac];
  rewrite ?cast_int32_id, ?cast_uint32_id by int_range.

Section Runs.

Variable sem : overflow_semantics.

(** The deg/s converter on a raw sample, for a positive sensitivity of the
    table's magnitude. *)
Lemma gyro_dps_run (r : Z) (s0 : store) :
  let s := gyro_dps_sensitivity (gyro_fs (st_cfg s0)) in
  0 < s <= 20972 -> raw_sample r ->
  icm42688_gyro_dps sem r s0
  = Ok (tt, {| st_cfg := st_cfg s0;
               st_whole := Z.quot (r * 10) s;
               st_frac := Z.quot ((Z.abs (r * 10) - Z.abs (Z.quot (r * 10) s) * s)
                                  * 1000000) s |}).
Proof.
  intros s Hs Hr. unfold raw_sample in Hr.
  pose proof (quot_abs_le (r * 10) s ltac:(lia)) as Hq.
  pose proof (abs_remainder_range (r * 10) s ltac:(lia)) as Hd.
  pose proof (micro_of_remainder _ s ltac:(lia) Hd) as Hu.
  unfold icm42688_gyro_dps. step_mem. fold s.
  run_steps.
  reflexivity.
Qed.

(** The m/s^2 converter on a raw sample. *)
Lemma accel_ms_run (r : Z) (s0 : store) :
  let s := accel_ms_sensitivity (accel_fs (st_cfg s0)) in
  0 < s <= 16384 -> raw_sample r ->
  icm42688_accel_ms sem r s0
  = Ok (tt, {| st_cfg := st_cfg s0;
               st_whole := Z.quot (r * SENSOR_G) (s * 1000000);
               st_frac := Z.quot (Z.abs (r * SENSOR_G)
                                  - Z.abs (Z.quot (r * SENSOR_G) (s * 1000000))
                                    * s * 1000000) s |}).
Proof.
  intros s Hs Hr. unfold raw_sample in Hr.
  pose proof (quot_abs_le (r * SENSOR_G) (s * 1000000) ltac:(lia)) as Hq.
  pose proof (abs_remainder_range (r * SENSOR_G) (s * 1000000) ltac:(lia)) as Hd.
  rewrite Z.mul_assoc in Hd.
  pose proof (micro_of_scaled_remainder _ s ltac:(lia) Hd) as Hu.
  assert (0 <= Z.abs (Z.quot (r * SENSOR_G) (s * 1000000)) * s) as Hp
    by (apply Z.mul_nonneg_nonneg; lia).
  unfold icm42688_accel_ms. step_mem. fold s.
  unfold SENSOR_G in *.
  run_steps.
  reflexivity.
Qed.

(** The rad/s converter on a raw sample, for a pi-scaled constant of
    [int] magnitude. *)
Lemma gyro_rads_run (SENSOR_PI r : Z) (s0 : store) :
  let s := gyro_rads_sensitivity (gyro_fs (st_cfg s0)) in
  0 <= SENSOR_PI <= INT32_MAX ->
  0 < s <= 20972 -> raw_sample r ->
  icm42688_gyro_rads sem SENSOR_PI r s0
  = Ok (tt, {| st_cfg := st_cfg s0;
               st_whole := Z.quot (r * SENSOR_PI * 10) (s * 180 * 1000000);
               st_frac := Z.quot (Z.abs (r * SENSOR_PI * 10)
                                  - Z.abs (Z.quot (r * SENSOR_PI * 10) (s * 180 * 1000000))
                                    * s * 180 * 1000000) (s * 180) |}).
Proof.
  intros s Hpi Hs Hr. unfold raw_sample in Hr.
  assert (-32768 * SENSOR_PI <= r * SENSOR_PI <= 32767 * SENSOR_PI) as Ht by nia.
  pose proof (quot_abs_le (r * SENSOR_PI * 10) (s * 180 * 1000000) ltac:(lia)) as Hq.
  pose proof (abs_remainder_range (r * SENSOR_PI * 10) (s * 180 * 1000000) ltac:(lia)) as Hd.
  rewrite !Z.mul_assoc in Hd.
  pose proof (micro_of_scaled_remainder _ (s * 180) ltac:(lia) Hd) as Hu.
  assert (0 <= Z.abs (Z.quot (r * SENSOR_PI * 10) (s * 180 * 1000000)) * s) as Hp
    by (apply Z.mul_nonneg_nonneg; lia).
  unfold icm42688_gyro_rads. step_mem. fold s.
  run_steps.
  reflexivity.
Qed.

(** The temperature converter on a raw sample. *)
Lemma temp_c_run (r : Z) (s0 : store) :
  raw_sample r ->
  icm42688_temp_c sem r s0
  = Ok (tt, {| st_cfg := st_cfg s0;
               st_whole := Z.quot (r * 100) 13248 + 25;
               st_frac := Z.quot ((Z.abs (r * 100)
                                   - Z.abs (Z.quot (r * 100) 13248) * 13248)
                                  * 1000000) 13248 |}).
Proof.
  intros Hr. unfold raw_sample in Hr.
  pose proof (quot_abs_le (r * 100) 13248 ltac:(lia)) as Hq.
  pose proof (abs_remainder_range (r * 100) 13248 ltac:(lia)) as Hd.
  pose proof (micro_of_remainder _ 13248 ltac:(lia) Hd) as Hu.
  unfold icm42688_temp_c. cbv zeta.
  run_steps.
  reflexivity.
Qed.

(** The g converter on a raw sample whose scaled remainder fits [int]. *)
Lemma accel_g_run (r : Z) (s0 : store) :
  let s := accel_g_sensitivity (accel_fs (st_cfg s0)) in
  0 < s <= 16384 -> raw_sample r ->
  (Z.abs r - Z.abs (Z.quot r s) * s) * 1000000 <= INT32_MAX ->
  icm42688_accel_g sem r s0
  = Ok (tt, {| st_cfg := st_cfg s0;
               st_whole := Z.quot r s;
               st_frac := Z.quot ((Z.abs r - Z.abs (Z.quot r s) * s) * 1000000) s |}).
Proof.
  intros s Hs Hr Hfit. unfold raw_sample in Hr.
  pose proof (quot_abs_le r s ltac:(lia)) as Hq.
  pose proof (abs_remainder_range r s ltac:(lia)) as Hd.
  pose proof (micro_of_remainder _ s ltac:(lia) Hd) as Hu.
  unfold icm42688_accel_g. step_mem. fold s.
  run_steps.
  reflexivity.
Qed.

End Runs.

(** The g converter as the compiled code runs it: the product of the
    remainder with 1000000 is reduced to 32 bits before the division. *)
Lemma accel_g_run_Wraps (r : Z) (s0 : store) :
  let s := accel_g_sensitivity (accel_fs (st_cfg s0)) in
  0 < s <= 16384 -> raw_sample r ->
  icm42688_accel_g Wraps r s0
  = Ok (tt, {| st_cfg := st_cfg s0;
               st_whole := Z.quot r s;
               st_frac := cast_uint32
                            (Z.quot (wrap32 ((Z.abs r - Z.abs (Z.quot r s) * s) * 1000000))
                                    s) |}).
Proof.
  intros s Hs Hr. unfold raw_sample in Hr.
  pose proof (quot_abs_le r s ltac:(lia)) as Hq.
  pose proof (abs_remainder_range r s ltac:(lia)) as Hd.
  pose proof (wrap32_range ((Z.abs r - Z.abs (Z.quot r s) * s) * 1000000)) as Hw.
  pose proof (quot_between _ s INT32_MIN INT32_MAX ltac:(lia) ltac:(int_range) Hw) as Hq'.
  unfold icm42688_accel_g. step_mem. fold s.
  run_ops.
  unfold mul32 at 1. rewrite (bind_eval_ok _ _ _ _ (signed32_Wraps_eq _)).
  run_steps.
  reflexivity.
Qed.

(** The g converter under undefined overflow: no result once the scaled
    remainder leaves the range of [int]. *)
Lemma accel_g_overflow (r : Z) (s0 : store) :
  let s := accel_g_sensitivity (accel_fs (st_cfg s0)) in
  0 < s <= 16384 -> raw_sample r ->
  INT32_MAX < (Z.abs r - Z.abs (Z.quot r s) * s) * 1000000 ->
  icm42688_accel_g Undefined r s0 = Fault SignedOverflow.
Proof.
  intros s Hs Hr Hbig. unfold raw_sample in Hr.
  pose proof (quot_abs_le r s ltac:(lia)) as Hq.
  pose proof (abs_remainder_range r s ltac:(lia)) as Hd.
  unfold icm42688_accel_g. step_mem. fold s.
  run_ops.
  apply bind_eval_fault. unfold mul32, signed32, in_int32.
  apply Z.leb_gt in Hbig. rewrite Hbig, andb_false_r. reflexivity.
Qed.

(** At full scale 16G the remainder is below 2048, its product with 1000000
    fits [int], and the g converter is exact on every raw sample. *)
Lemma accel_g_run_16G (sem : overflow_semantics) (r : Z) (s0 : store) :
  accel_fs (st_cfg s0) = ICM42688_ACCEL_FS_16G -> raw_sample r ->
  outputs (icm42688_accel_g sem r s0)
  = Ok (Z.quot r 2048, Z.quot ((Z.abs r - Z.abs (Z.quot r 2048) * 2048) * 1000000) 2048)
  /\ 0 <= Z.quot ((Z.abs r - Z.abs (Z.quot r 2048) * 2048) * 1000000) 2048 < 1000000.
Proof.
  intros Hfs Hr.
  pose proof (abs_remainder_range r 2048 ltac:(lia)) as Hd.
  split.
  - rewrite accel_g_run; rewrite ?Hfs; change (accel_g_sensitivity ICM42688_ACCEL_FS_16G)
      with 2048; try assumption; try reflexivity; int_range.
  - apply micro_of_remainder; [ lia | exact Hd ].
Qed.

(** ** The sensitivity tables *)

Lemma accel_fs_enumerated_cases fs :
  accel_fs_enumerated fs = true ->
  fs = ICM42688_ACCEL_FS_16G \/ fs = ICM42688_ACCEL_FS_8G
  \/ fs = ICM42688_ACCEL_FS_4G \/ fs = ICM42688_ACCEL_FS_2G.
Proof.
  unfold accel_fs_enumerated. rewrite !orb_true_iff, !Z.eqb_eq. tauto.
Qed.

Lemma gyro_fs_enumerated_cases fs :
  gyro_fs_enumerated fs = true ->
  fs = ICM42688_GYRO_FS_2000 \/ fs = ICM42688_GYRO_FS_1000
  \/ fs = ICM42688_GYRO_FS_500 \/ fs = ICM42688_GYRO_FS_250
  \/ fs = ICM42688_GYRO_FS_125 \/ fs = ICM42688_GYRO_FS_62_5
  \/ fs = ICM42688_GYRO_FS_31_25 \/ fs = ICM42688_GYRO_FS_15_625.
Proof.
  unfold gyro_fs_enumerated. rewrite !orb_true_iff, !Z.eqb_eq. tauto.
Qed.

Ltac each_accel_fs H :=
  apply accel_fs_enumerated_cases in H;
  destruct H as [H|[H|[H|H]]]; rewrite H.

Ltac each_gyro_fs H :=
  apply gyro_fs_enumerated_cases in H;
  destruct H as [H|[H|[H|[H|[H|[H|[H|H]]]]]]]; rewrite H.

Lemma accel_g_sensitivity_pos fs :
  accel_fs_enumerated fs = true -> 0 < accel_g_sensitivity fs <= 16384.
Proof. intros H. each_accel_fs H; vm_compute; intuition discriminate. Qed.

Lemma accel_ms_sensitivity_pos fs :
  accel_fs_enumerated fs = true -> 0 < accel_ms_sensitivity fs <= 16384.
Proof. intros H. each_accel_fs H; vm_compute; intuition discriminate. Qed.

Lemma gyro_dps_sensitivity_pos fs :
  gyro_fs_enumerated fs = true -> 0 < gyro_dps_sensitivity fs <= 20972.
Proof. intros H. each_gyro_fs H; vm_compute; intuition discriminate. Qed.

Lemma gyro_rads_sensitivity_pos fs :
  gyro_fs_enumerated fs = true -> 0 < gyro_rads_sensitivity fs <= 20972.
Proof. intros H. each_gyro_fs H; vm_compute; intuition discriminate. Qed.

Lemma accel_fs_not_enumerated fs :
  accel_fs_enumerated fs = false ->
  accel_g_sensitivity fs = 0 /\ accel_ms_sensitivity fs = 0.
Proof.
  unfold accel_fs_enumerated, accel_g_sensitivity, accel_ms_sensitivity.
  rewrite !orb_false_iff. intros [[[H0 H1] H2] H3].
  now rewrite H0, H1, H2, H3.
Qed.

Lemma gyro_fs_not_enumerated fs :
  gyro_fs_enumerated fs = false ->
  gyro_dps_sensitivity fs = 0 /\ gyro_rads_sensitivity fs = 0.
Proof.
  unfold gyro_fs_enumerated, gyro_dps_sensitivity, gyro_rads_sensitivity.
  rewrite !orb_false_iff. intros [[[[[[[H0 H1] H2] H3] H4] H5] H6] H7].
  now rewrite H0, H1, H2, H3, H4, H5, H6, H7.
Qed.

(** ** Frame: what a converter leaves untouched *)

Create HintDb frame.

Lemma keeps_cfg_bind {A B} (m : M A) (k : A -> M B) :
  keeps_cfg m -> (forall a, keeps_cfg (k a)) -> keeps_cfg (bind m k).
Proof.
  intros Hm Hk s b s'. unfold bind.
  destruct (m s) as [[a s1]|f] eqn:E; [|discriminate].
  intros H. rewrite (Hk a _ _ _ H). eapply Hm; eassumption.
Qed.

Lemma keeps_cfg_eval {A} (r : result A) : keeps_cfg (eval r).
Proof. intros s a s'. unfold eval. destruct r; congruence. Qed.

Lemma keeps_cfg_load_cfg {A} (field : icm42688_cfg -> A) : keeps_cfg (load_cfg field).
Proof. intros s a s'. unfold load_cfg. congruence. Qed.

Lemma keeps_cfg_load_whole : keeps_cfg load_whole.
Proof. intros s a s'. unfold load_whole. congruence. Qed.

Lemma keeps_cfg_store_whole v : keeps_cfg (store_whole v).
Proof. intros s a s'. unfold store_whole. intros [= _ <-]. reflexivity. Qed.

Lemma keeps_cfg_store_frac v : keeps_cfg (store_frac v).
Proof. intros s a s'. unfold store_frac. intros [= _ <-]. reflexivity. Qed.

#[export] Hint Resolve keeps_cfg_eval keeps_cfg_load_cfg keeps_cfg_load_whole
  keeps_cfg_store_whole keeps_cfg_store_frac : frame.

Ltac frame_steps :=
  repeat (apply keeps_cfg_bind; [ auto with frame | intros ? ]); auto with frame.

Section Frame.

Variable sem : overflow_semantics.
Variable SENSOR_PI : Z.

Lemma accel_g_keeps_cfg r : keeps_cfg (icm42688_accel_g sem r).
Proof. unfold icm42688_accel_g. frame_steps. Qed.

Lemma gyro_dps_keeps_cfg r : keeps_cfg (icm42688_gyro_dps sem r).
Proof. unfold icm42688_gyro_dps. frame_steps. Qed.

Lemma accel_ms_keeps_cfg r : keeps_cfg (icm42688_accel_ms sem r).
Proof. unfold icm42688_accel_ms. frame_steps. Qed.

Lemma gyro_rads_keeps_cfg r : keeps_cfg (icm42688_gyro_rads sem SENSOR_PI r).
Proof. unfold icm42688_gyro_rads. frame_steps. Qed.

Lemma temp_c_keeps_cfg r : keeps_cfg (icm42688_temp_c sem r).
Proof. unfold icm42688_temp_c. frame_steps. Qed.

End Frame.

(** ** Outputs as a function of the full-scale field and the raw value *)

(** Advance both runs over the same arithmetic step. *)
Ltac step_both :=
  rewrite !bind_eval;
  match goal with
  | |- context [match ?r with Ok _ => _ | Fault _ => _ end] =>
      destruct r; [ | reflexivity ]
  end.

Ltac run_both := repeat first [ progress step_mem | step_both ].

Section Determinism.

Variable sem : overflow_semantics.
Variable SENSOR_PI : Z.

Lemma accel_g_reads_accel_fs r s1 s2 :
  accel_fs (st_cfg s1) = accel_fs (st_cfg s2) ->
  outputs (icm42688_accel_g sem r s1) = outputs (icm42688_accel_g sem r s2).
Proof.
  intros E. unfold icm42688_accel_g. step_mem. rewrite E. run_both. reflexivity.
Qed.

Lemma accel_ms_reads_accel_fs r s1 s2 :
  accel_fs (st_cfg s1) = accel_fs (st_cfg s2) ->
  outputs (icm42688_accel_ms sem r s1) = outputs (icm42688_accel_ms sem r s2).
Proof.
  intros E. unfold icm42688_accel_ms. step_mem. rewrite E. run_both. reflexivity.
Qed.

Lemma gyro_dps_reads_gyro_fs r s1 s2 :
  gyro_fs (st_cfg s1) = gyro_fs (st_cfg s2) ->
  outputs (icm42688_gyro_dps sem r s1) = outputs (icm42688_gyro_dps sem r s2).
Proof.
  intros E. unfold icm42688_gyro_dps. step_mem. rewrite E. run_both. reflexivity.
Qed.

Lemma gyro_rads_reads_gyro_fs r s1 s2 :
  gyro_fs (st_cfg s1) = gyro_fs (st_cfg s2) ->
  outputs (icm42688_gyro_rads sem SENSOR_PI r s1)
  = outputs (icm42688_gyro_rads sem SENSOR_PI r s2).
Proof.
  intros E. unfold icm42688_gyro_rads. step_mem. rewrite E. run_both. reflexivity.
Qed.

Lemma temp_c_reads_nothing r s1 s2 :
  outputs (icm42688_temp_c sem r s1) = outputs (icm42688_temp_c sem r s2).
Proof.
  unfold icm42688_temp_c. cbv zeta. run_both. reflexivity.
Qed.

End Determinism.

(** ** Division by zero *)

(** Advance over a step that cannot be a division by zero. *)
Ltac step_no_div0 :=
  rewrite bind_eval;
  match goal with
  | |- context [match ?r with Ok _ => _ | Fault _ => _ end] =>
      let E := fresh "E" in
      destruct r as [?|[|]] eqn:E;
      [ | exfalso; revert E;
          unfold mul32, sub32, add32, abs32;
          rewrite ?div32_nonzero by lia;
          apply signed32_no_div0
        | discriminate ]
  end.

Lemma accel_g_no_div0 sem r s0 :
  0 < accel_g_sensitivity (accel_fs (st_cfg s0)) ->
  icm42688_accel_g sem r s0 <> Fault DivisionByZero.
Proof.
  intros Hs. unfold icm42688_accel_g. step_mem.
  repeat first [ progress step_mem | step_no_div0 ].
  discriminate.
Qed.

Section Unmapped.

Variable sem : overflow_semantics.
Variable SENSOR_PI : Z.
Hypothesis SENSOR_PI_int : 0 <= SENSOR_PI <= INT32_MAX.

Lemma accel_g_unmapped r s0 :
  accel_g_sensitivity (accel_fs (st_cfg s0)) = 0 ->
  icm42688_accel_g sem r s0 = Fault DivisionByZero.
Proof.
  intros E. unfold icm42688_accel_g. step_mem. rewrite E.
  apply bind_eval_fault. reflexivity.
Qed.

Lemma gyro_dps_unmapped r s0 :
  raw_sample r ->
  gyro_dps_sensitivity (gyro_fs (st_cfg s0)) = 0 ->
  icm42688_gyro_dps sem r s0 = Fault DivisionByZero.
Proof.
  intros Hr E. unfold raw_sample in Hr.
  unfold icm42688_gyro_dps. step_mem. rewrite E.
  step_ok. apply bind_eval_fault. reflexivity.
Qed.

Lemma accel_ms_unmapped r s0 :
  raw_sample r ->
  accel_ms_sensitivity (accel_fs (st_cfg s0)) = 0 ->
  icm42688_accel_ms sem r s0 = Fault DivisionByZero.
Proof.
  intros Hr E. unfold raw_sample in Hr.
  unfold icm42688_accel_ms. step_mem. rewrite E. unfold SENSOR_G.
  do 2 step_ok. apply bind_eval_fault. reflexivity.
Qed.

Lemma gyro_rads_unmapped r s0 :
  raw_sample r ->
  gyro_rads_sensitivity (gyro_fs (st_cfg s0)) = 0 ->
  icm42688_gyro_rads sem SENSOR_PI r s0 = Fault DivisionByZero.
Proof.
  intros Hr E. unfold raw_sample in Hr.
  assert (-32768 * SENSOR_PI <= r * SENSOR_PI <= 32767 * SENSOR_PI) as Ht by nia.
  unfold icm42688_gyro_rads. step_mem. rewrite E.
  do 4 step_ok. apply bind_eval_fault. reflexivity.
Qed.

End Unmapped.

(** ** Properties of the conversion engine *)

(** C1: at full scale 2G the raw value 24576 (1.5 g) has whole part
    24576 / 16384 = 1, but the micro-g part is not in [0, 1000000): the
    product of the remainder 8192 with 1000000 is formed in [int] and does not
    fit.  With undefined overflow the call has no result; with wrap-around it
    leaves 4294943008 in the micro-g cell. *)
Theorem accel_g_micro_overflows_2G_24576 :
  outputs (icm42688_accel_g Undefined 24576
             (store_with ICM42688_ACCEL_FS_2G ICM42688_GYRO_FS_2000))
  = Fault SignedOverflow
  /\ outputs (icm42688_accel_g Wraps 24576
                (store_with ICM42688_ACCEL_FS_2G ICM42688_GYRO_FS_2000))
     = Ok (Z.quot 24576 16384, 4294943008)
  /\ Z.quot 24576 16384 = 1
  /\ INT32_MAX < (24576 - 1 * 16384) * 1000000
  /\ ~ (0 <= 4294943008 < 1000000).
Proof.
  repeat split; try reflexivity. intros [_ H]. discriminate H.
Qed.

(** C2 (as the code has it): for a raw sample and a full-scale selector
    outside the enumerated set, every sensitivity lookup leaves the
    sensitivity at 0, no error is reported by the lookup, and each of the four
    configuration-dependent converters stops in a division by zero. *)
Theorem unmapped_selector_divides_by_zero
  (sem : overflow_semantics) (SENSOR_PI r : Z) (s0 : store) :
  0 <= SENSOR_PI <= INT32_MAX ->
  raw_sample r ->
  (accel_fs_enumerated (accel_fs (st_cfg s0)) = false ->
   accel_g_sensitivity (accel_fs (st_cfg s0)) = 0
   /\ accel_ms_sensitivity (accel_fs (st_cfg s0)) = 0
   /\ icm42688_accel_g sem r s0 = Fault DivisionByZero
   /\ icm42688_accel_ms sem r s0 = Fault DivisionByZero)
  /\ (gyro_fs_enumerated (gyro_fs (st_cfg s0)) = false ->
      gyro_dps_sensitivity (gyro_fs (st_cfg s0)) = 0
      /\ gyro_rads_sensitivity (gyro_fs (st_cfg s0)) = 0
      /\ icm42688_gyro_dps sem r s0 = Fault DivisionByZero
      /\ icm42688_gyro_rads sem SENSOR_PI r s0 = Fault DivisionByZero).
Proof.
  intros Hpi Hr. split; intros Hfs.
  - destruct (accel_fs_not_enumerated _ Hfs) as [Hg Hms].
    repeat split; auto using accel_g_unmapped, accel_ms_unmapped.
  - destruct (gyro_fs_not_enumerated _ Hfs) as [Hd Hrad].
    repeat split; auto using gyro_dps_unmapped, gyro_rads_unmapped.
Qed.

Lemma unmapped_selector_divides_by_zero_witness :
  (0 <= 3141592 <= INT32_MAX /\ raw_sample 100)
  /\ (accel_fs_enumerated 4 = false /\ gyro_fs_enumerated 8 = false)
  /\ icm42688_accel_g Undefined 100 (store_with 4 8) = Fault DivisionByZero
  /\ icm42688_gyro_rads Undefined 3141592 100 (store_with 4 8) = Fault DivisionByZero.
Proof.
  assert (Hpi : 0 <= 3141592 <= INT32_MAX) by (unfold INT32_MAX; lia).
  assert (Hr : raw_sample 100) by (unfold raw_sample; lia).
  destruct (unmapped_selector_divides_by_zero Undefined 3141592 100 (store_with 4 8) Hpi Hr)
    as [Ha Hg].
  split; [ exact (conj Hpi Hr) | ].
  split; [ split; reflexivity | ].
  split; [ apply (Ha eq_refl) | apply (Hg eq_refl) ].
Defined.

(** C2 (as stated) fails: the selector values 4 and 8 are outside the
    enumerated sets, the lookups yield sensitivity 0 for them, and the
    converters divide by it. *)
Lemma unmapped_selector_counterexample :
  accel_fs_enumerated 4 = false
  /\ accel_g_sensitivity 4 = 0
  /\ outputs (icm42688_accel_g Undefined 100 (store_with 4 8)) = Fault DivisionByZero
  /\ outputs (icm42688_accel_g Wraps 100 (store_with 4 8)) = Fault DivisionByZero
  /\ gyro_fs_enumerated 8 = false
  /\ gyro_dps_sensitivity 8 = 0
  /\ outputs (icm42688_gyro_dps Undefined 100 (store_with 4 8)) = Fault DivisionByZero
  /\ outputs (icm42688_gyro_dps Wraps 100 (store_with 4 8)) = Fault DivisionByZero.
Proof. repeat split; reflexivity. Qed.

(** C3: for the raw value 32767 at full scale 2G the whole part is 1, but the
    micro-g part is not ((32767 - 16384) * 1000000) / 16384 = 999938: the
    product 16383 * 1000000 does not fit [int].  With undefined overflow the
    call has no result; with wrap-around it leaves 4294918659. *)
Theorem accel_g_boundary_2G_32767 :
  Z.quot ((32767 - 16384) * 1000000) 16384 = 999938
  /\ INT32_MAX < (32767 - 16384) * 1000000
  /\ outputs (icm42688_accel_g Undefined 32767
                (store_with ICM42688_ACCEL_FS_2G ICM42688_GYRO_FS_2000))
     = Fault SignedOverflow
  /\ outputs (icm42688_accel_g Wraps 32767
                (store_with ICM42688_ACCEL_FS_2G ICM42688_GYRO_FS_2000))
     = Ok (1, 4294918659)
  /\ (forall sem,
         outputs (icm42688_accel_g sem 32767
                    (store_with ICM42688_ACCEL_FS_2G ICM42688_GYRO_FS_2000))
         <> Ok (1, 999938)).
Proof.
  repeat split; try reflexivity. intros [|]; discriminate.
Qed.

(** C4: for every raw sample r the temperature converter leaves
    (r * 100) / 13248 + 25 in the whole cell, where the division truncates,
    and in the micro cell the remainder of that division (taken on absolute
    values, before the offset) scaled to micro-units; the offset 25 goes to
    the whole part only.  For r = 0 the pair is (25, 0). *)
Theorem temp_c_offset_after_truncation
  (sem : overflow_semantics) (r : Z) (s0 : store) :
  raw_sample r ->
  outputs (icm42688_temp_c sem r s0)
  = Ok (Z.quot (r * 100) 13248 + 25,
        Z.quot ((Z.abs (r * 100) - Z.abs (Z.quot (r * 100) 13248) * 13248) * 1000000)
               13248)
  /\ Z.abs (r * 100) - Z.abs (Z.quot (r * 100) 13248) * 13248
     = Z.rem (Z.abs (r * 100)) 13248
  /\ outputs (icm42688_temp_c sem 0 s0) = Ok (25, 0).
Proof.
  intros Hr. split; [ | split ].
  - now rewrite temp_c_run.
  - apply abs_remainder. lia.
  - rewrite temp_c_run by (unfold raw_sample; lia). reflexivity.
Qed.

Lemma temp_c_offset_after_truncation_witness :
  raw_sample (-3000)
  /\ outputs (icm42688_temp_c Undefined (-3000)
                (store_with ICM42688_ACCEL_FS_2G ICM42688_GYRO_FS_2000))
     = Ok (-22 + 25, 644927).
Proof.
  assert (Hr : raw_sample (-3000)) by (unfold raw_sample; lia).
  split; [ exact Hr | ].
  exact (proj1 (temp_c_offset_after_truncation Undefined (-3000)
                  (store_with ICM42688_ACCEL_FS_2G ICM42688_GYRO_FS_2000) Hr)).
Defined.

(** C5: the gyroscope sensitivity lookup of the deg/s converter and that of
    the rad/s converter both return 164, 328, 655, 1310, 2620, 5243, 10486 and
    20972 for the ranges 2000, 1000, 500, 250, 125, 62.5, 31.25 and 15.625
    deg/s. *)
Theorem gyro_sensitivity_table :
  map gyro_dps_sensitivity
      [ ICM42688_GYRO_FS_2000; ICM42688_GYRO_FS_1000; ICM42688_GYRO_FS_500;
        ICM42688_GYRO_FS_250; ICM42688_GYRO_FS_125; ICM42688_GYRO_FS_62_5;
        ICM42688_GYRO_FS_31_25; ICM42688_GYRO_FS_15_625 ]
  = [ 164; 328; 655; 1310; 2620; 5243; 10486; 20972 ]
  /\ map gyro_rads_sensitivity
         [ ICM42688_GYRO_FS_2000; ICM42688_GYRO_FS_1000; ICM42688_GYRO_FS_500;
           ICM42688_GYRO_FS_250; ICM42688_GYRO_FS_125; ICM42688_GYRO_FS_62_5;
           ICM42688_GYRO_FS_31_25; ICM42688_GYRO_FS_15_625 ]
     = [ 164; 328; 655; 1310; 2620; 5243; 10486; 20972 ].
Proof. split; reflexivity. Qed.

(** C6 (as stated) fails: for the raw value 0 the temperature converter
    yields (25, 0), not (0, 0). *)
Lemma temp_c_zero_counterexample :
  outputs (icm42688_temp_c Undefined 0
             (store_with ICM42688_ACCEL_FS_2G ICM42688_GYRO_FS_2000))
  = Ok (25, 0)
  /\ outputs (icm42688_temp_c Undefined 0
                (store_with ICM42688_ACCEL_FS_2G ICM42688_GYRO_FS_2000))
     <> Ok (0, 0)
  /\ outputs (icm42688_temp_c Wraps 0
                (store_with ICM42688_ACCEL_FS_2G ICM42688_GYRO_FS_2000))
     <> Ok (0, 0).
Proof. repeat split; try reflexivity; discriminate. Qed.

(** C6 (as the code has it): for the raw value 0 and every configuration
    whose full-scale fields hold enumerators, the four configuration-dependent
    converters (g, m/s^2, deg/s, rad/s) yield (0, 0) and the temperature
    converter yields (25, 0). *)
Theorem zero_raw_outputs
  (sem : overflow_semantics) (SENSOR_PI : Z) (s0 : store) :
  cfg_in_range (st_cfg s0) = true ->
  outputs (icm42688_accel_g sem 0 s0) = Ok (0, 0)
  /\ outputs (icm42688_accel_ms sem 0 s0) = Ok (0, 0)
  /\ outputs (icm42688_gyro_dps sem 0 s0) = Ok (0, 0)
  /\ outputs (icm42688_gyro_rads sem SENSOR_PI 0 s0) = Ok (0, 0)
  /\ outputs (icm42688_temp_c sem 0 s0) = Ok (25, 0).
Proof.
  unfold cfg_in_range. intros H. apply andb_true_iff in H as [Ha Hg].
  destruct s0 as [[am afs ao gm gfs go td fe fw fh] w f].
  cbn [st_cfg accel_fs gyro_fs] in Ha, Hg.
  split; [ | split; [ | split; [ | split ] ] ].
  - each_accel_fs Ha; reflexivity.
  - each_accel_fs Ha; reflexivity.
  - each_gyro_fs Hg; reflexivity.
  - each_gyro_fs Hg; reflexivity.
  - reflexivity.
Qed.

Lemma zero_raw_outputs_witness :
  cfg_in_range (st_cfg store_other) = true
  /\ outputs (icm42688_accel_g Undefined 0 store_other) = Ok (0, 0)
  /\ outputs (icm42688_accel_ms Undefined 0 store_other) = Ok (0, 0)
  /\ outputs (icm42688_gyro_dps Undefined 0 store_other) = Ok (0, 0)
  /\ outputs (icm42688_gyro_rads Undefined 3141592 0 store_other) = Ok (0, 0)
  /\ outputs (icm42688_temp_c Undefined 0 store_other) = Ok (25, 0).
Proof.
  split; [ reflexivity | ].
  exact (zero_raw_outputs Undefined 3141592 store_other eq_refl).
Defined.

(** C7: for every enumerated gyroscope selector and every raw sample r, with
    a non-negative pi-scaled constant of [int] magnitude, the rad/s converter
    yields the whole part (r * SENSOR_PI * 10) / (sensitivity * 180 * 1000000)
    by truncating division and the micro part as the remainder of that
    division on absolute values divided by (sensitivity * 180); the micro part
    is in [0, 1000000); every product formed on the way is within the signed
    64-bit range, so the run has a result also when overflow is undefined. *)
Theorem gyro_rads_whole_micro_no_overflow
  (sem : overflow_semantics) (SENSOR_PI r : Z) (s0 : store) :
  0 <= SENSOR_PI <= INT32_MAX ->
  gyro_fs_enumerated (gyro_fs (st_cfg s0)) = true ->
  raw_sample r ->
  let s := gyro_rads_sensitivity (gyro_fs (st_cfg s0)) in
  let in10_rads := r * SENSOR_PI * 10 in
  let whole := Z.quot in10_rads (s * 180 * 1000000) in
  let remainder := Z.abs in10_rads - Z.abs whole * s * 180 * 1000000 in
  outputs (icm42688_gyro_rads sem SENSOR_PI r s0) = Ok (whole, Z.quot remainder (s * 180))
  /\ remainder = Z.rem (Z.abs in10_rads) (s * 180 * 1000000)
  /\ 0 <= Z.quot remainder (s * 180) < 1000000
  /\ fits_int64 (r * SENSOR_PI) /\ fits_int64 in10_rads
  /\ fits_int64 (s * 180) /\ fits_int64 (s * 180 * 1000000)
  /\ fits_int64 (Z.abs whole * s) /\ fits_int64 (Z.abs whole * s * 180)
  /\ fits_int64 (Z.abs whole * s * 180 * 1000000).
Proof.
  intros Hpi Hfs Hr s in10_rads whole remainder.
  pose proof (gyro_rads_sensitivity_pos _ Hfs) as Hs. fold s in Hs.
  pose proof (gyro_rads_run sem SENSOR_PI r s0 Hpi Hs Hr) as Hrun.
  unfold raw_sample in Hr.
  assert (-32768 * SENSOR_PI <= r * SENSOR_PI <= 32767 * SENSOR_PI) as Ht by nia.
  pose proof (quot_abs_le in10_rads (s * 180 * 1000000) ltac:(lia)) as Hq.
  pose proof (abs_remainder_range in10_rads (s * 180 * 1000000) ltac:(lia)) as Hd.
  rewrite !Z.mul_assoc in Hd.
  assert (0 <= Z.abs whole * s) as Hp by (apply Z.mul_nonneg_nonneg; lia).
  fold whole in Hq, Hd.
  split; [ | split; [ | split ] ].
  - rewrite Hrun. reflexivity.
  - unfold remainder, whole. rewrite <- abs_remainder by lia.
    now rewrite !Z.mul_assoc.
  - apply micro_of_scaled_remainder; [ lia | exact Hd ].
  - unfold fits_int64, in10_rads in *. repeat split; int_range.
Qed.

Lemma gyro_rads_whole_micro_no_overflow_witness :
  (0 <= 3141592 <= INT32_MAX
   /\ gyro_fs_enumerated (gyro_fs (st_cfg store_other)) = true
   /\ raw_sample (-1000))
  /\ outputs (icm42688_gyro_rads Undefined 3141592 (-1000) store_other) = Ok (-1, 64224).
Proof.
  assert (Hpi : 0 <= 3141592 <= INT32_MAX) by (unfold INT32_MAX; lia).
  assert (Hr : raw_sample (-1000)) by (unfold raw_sample; lia).
  split; [ exact (conj Hpi (conj eq_refl Hr)) | ].
  exact (proj1 (gyro_rads_whole_micro_no_overflow Undefined 3141592 (-1000) store_other
                  Hpi eq_refl Hr)).
Defined.

(** C8: for every enumerated accelerometer selector and every raw sample r,
    the m/s^2 converter scales r by the gravity constant 9806650 (9.80665
    m/s^2 in micro-units), yields as whole part the truncating division of
    that product by (sensitivity * 1000000), and as micro part the remainder of
    that division on absolute values divided by the sensitivity, which is in
    [0, 1000000). *)
Theorem accel_ms_whole_micro
  (sem : overflow_semantics) (r : Z) (s0 : store) :
  accel_fs_enumerated (accel_fs (st_cfg s0)) = true ->
  raw_sample r ->
  let s := accel_ms_sensitivity (accel_fs (st_cfg s0)) in
  let in_ms := r * SENSOR_G in
  let whole := Z.quot in_ms (s * 1000000) in
  let remainder := Z.abs in_ms - Z.abs whole * s * 1000000 in
  SENSOR_G = 9806650
  /\ outputs (icm42688_accel_ms sem r s0) = Ok (whole, Z.quot remainder s)
  /\ remainder = Z.rem (Z.abs in_ms) (s * 1000000)
  /\ 0 <= Z.quot remainder s < 1000000.
Proof.
  intros Hfs Hr s in_ms whole remainder.
  pose proof (accel_ms_sensitivity_pos _ Hfs) as Hs. fold s in Hs.
  pose proof (accel_ms_run sem r s0 Hs Hr) as Hrun.
  pose proof (abs_remainder_range in_ms (s * 1000000) ltac:(lia)) as Hd.
  rewrite Z.mul_assoc in Hd.
  split; [ reflexivity | split; [ | split ] ].
  - rewrite Hrun. reflexivity.
  - unfold remainder, whole. rewrite <- abs_remainder by lia.
    now rewrite Z.mul_assoc.
  - apply micro_of_scaled_remainder; [ lia | exact Hd ].
Qed.

Lemma accel_ms_whole_micro_witness :
  (accel_fs_enumerated (accel_fs (st_cfg store_other)) = true /\ raw_sample 16384)
  /\ outputs (icm42688_accel_ms Undefined 16384 store_other) = Ok (9, 806650).
Proof.
  assert (Hr : raw_sample 16384) by (unfold raw_sample; lia).
  split; [ exact (conj eq_refl Hr) | ].
  exact (proj1 (proj2 (accel_ms_whole_micro Undefined 16384 store_other eq_refl Hr))).
Defined.

(** What holds of the divisors: for every configuration whose full-scale
    fields hold enumerators and every raw sample, every divisor of every
    converter is strictly positive and no converter ends in a division by
    zero; the deg/s, m/s^2, rad/s and temperature converters return a result
    under either overflow semantics, and the g converter returns one as
    compiled (with wrap-around).  Under undefined overflow the g converter
    does fail on such inputs, see [accel_g_fails_in_range_2G_32767]. *)
Theorem converters_divisors_positive
  (sem : overflow_semantics) (SENSOR_PI r : Z) (s0 : store) :
  0 <= SENSOR_PI <= INT32_MAX ->
  cfg_in_range (st_cfg s0) = true ->
  raw_sample r ->
  (0 < accel_g_sensitivity (accel_fs (st_cfg s0))
   /\ 0 < gyro_dps_sensitivity (gyro_fs (st_cfg s0))
   /\ 0 < accel_ms_sensitivity (accel_fs (st_cfg s0))
   /\ 0 < accel_ms_sensitivity (accel_fs (st_cfg s0)) * 1000000
   /\ 0 < gyro_rads_sensitivity (gyro_fs (st_cfg s0)) * 180
   /\ 0 < gyro_rads_sensitivity (gyro_fs (st_cfg s0)) * 180 * 1000000)
  /\ (icm42688_accel_g sem r s0 <> Fault DivisionByZero
      /\ icm42688_gyro_dps sem r s0 <> Fault DivisionByZero
      /\ icm42688_accel_ms sem r s0 <> Fault DivisionByZero
      /\ icm42688_gyro_rads sem SENSOR_PI r s0 <> Fault DivisionByZero
      /\ icm42688_temp_c sem r s0 <> Fault DivisionByZero)
  /\ ((exists s', icm42688_gyro_dps sem r s0 = Ok (tt, s'))
      /\ (exists s', icm42688_accel_ms sem r s0 = Ok (tt, s'))
      /\ (exists s', icm42688_gyro_rads sem SENSOR_PI r s0 = Ok (tt, s'))
      /\ (exists s', icm42688_temp_c sem r s0 = Ok (tt, s'))
      /\ (exists s', icm42688_accel_g Wraps r s0 = Ok (tt, s'))).
Proof.
  unfold cfg_in_range. intros Hpi Hcfg Hr.
  apply andb_true_iff in Hcfg as [Ha Hg].
  pose proof (accel_g_sensitivity_pos _ Ha) as Hag.
  pose proof (accel_ms_sensitivity_pos _ Ha) as Ham.
  pose proof (gyro_dps_sensitivity_pos _ Hg) as Hgd.
  pose proof (gyro_rads_sensitivity_pos _ Hg) as Hgr.
  split; [ lia | split ].
  - split; [ apply accel_g_no_div0; lia | ].
    rewrite gyro_dps_run, accel_ms_run, gyro_rads_run, temp_c_run by assumption.
    repeat split; discriminate.
  - rewrite gyro_dps_run, accel_ms_run, gyro_rads_run, temp_c_run, accel_g_run_Wraps
      by assumption.
    repeat split; eexists; reflexivity.
Qed.

Lemma converters_divisors_positive_witness :
  (0 <= 3141592 <= INT32_MAX
   /\ cfg_in_range (st_cfg store_other) = true
   /\ raw_sample 32767)
  /\ 0 < accel_g_sensitivity (accel_fs (st_cfg store_other))
  /\ icm42688_accel_g Undefined 32767 store_other <> Fault DivisionByZero
  /\ icm42688_gyro_dps Undefined 32767 store_other <> Fault DivisionByZero.
Proof.
  assert (Hpi : 0 <= 3141592 <= INT32_MAX) by (unfold INT32_MAX; lia).
  assert (Hr : raw_sample 32767) by (unfold raw_sample; lia).
  destruct (converters_divisors_positive Undefined 3141592 32767 store_other
              Hpi eq_refl Hr) as [Hdiv [Hnz _]].
  split; [ exact (conj Hpi (conj eq_refl Hr)) | ].
  split; [ apply Hdiv | ].
  split; apply Hnz.
Defined.


(** C10: no converter changes the configuration record it is given, and the
    pair a converter yields is a function of the raw value and of the
    full-scale field it switches on alone: two runs from stores that agree on
    that field (and may differ in every other field and in what the output
    cells held) end alike, in the same pair or in the same fault; the
    temperature converter depends on the raw value only. *)
Theorem converters_frame_and_determinism
  (sem : overflow_semantics) (SENSOR_PI r : Z) (s1 s2 : store) :
  ((forall s', icm42688_accel_g sem r s1 = Ok (tt, s') -> st_cfg s' = st_cfg s1)
   /\ (forall s', icm42688_gyro_dps sem r s1 = Ok (tt, s') -> st_cfg s' = st_cfg s1)
   /\ (forall s', icm42688_accel_ms sem r s1 = Ok (tt, s') -> st_cfg s' = st_cfg s1)
   /\ (forall s', icm42688_gyro_rads sem SENSOR_PI r s1 = Ok (tt, s')
                  -> st_cfg s' = st_cfg s1)
   /\ (forall s', icm42688_temp_c sem r s1 = Ok (tt, s') -> st_cfg s' = st_cfg s1))
  /\ (accel_fs (st_cfg s1) = accel_fs (st_cfg s2) ->
      outputs (icm42688_accel_g sem r s1) = outputs (icm42688_accel_g sem r s2)
      /\ outputs (icm42688_accel_ms sem r s1) = outputs (icm42688_accel_ms sem r s2))
  /\ (gyro_fs (st_cfg s1) = gyro_fs (st_cfg s2) ->
      outputs (icm42688_gyro_dps sem r s1) = outputs (icm42688_gyro_dps sem r s2)
      /\ outputs (icm42688_gyro_rads sem SENSOR_PI r s1)
         = outputs (icm42688_gyro_rads sem SENSOR_PI r s2))
  /\ outputs (icm42688_temp_c sem r s1) = outputs (icm42688_temp_c sem r s2).
Proof.
  split; [ | split; [ | split ] ].
  - split; [ | split; [ | split; [ | split ] ] ]; intros s'.
    + apply accel_g_keeps_cfg.
    + apply gyro_dps_keeps_cfg.
    + apply accel_ms_keeps_cfg.
    + apply gyro_rads_keeps_cfg.
    + apply temp_c_keeps_cfg.
  - intros E. split.
    + now apply accel_g_reads_accel_fs.
    + now apply accel_ms_reads_accel_fs.
  - intros E. split.
    + now apply gyro_dps_reads_gyro_fs.
    + now apply gyro_rads_reads_gyro_fs.
  - apply temp_c_reads_nothing.
Qed.

Lemma converters_frame_and_determinism_witness :
  (accel_fs (st_cfg (store_with ICM42688_ACCEL_FS_2G ICM42688_GYRO_FS_2000))
   = accel_fs (st_cfg store_other)
   /\ gyro_fs (st_cfg (store_with ICM42688_ACCEL_FS_2G ICM42688_GYRO_FS_2000))
      = gyro_fs (st_cfg store_other))
  /\ outputs (icm42688_accel_ms Undefined 16384
                (store_with ICM42688_ACCEL_FS_2G ICM42688_GYRO_FS_2000))
     = outputs (icm42688_accel_ms Undefined 16384 store_other)
  /\ outputs (icm42688_gyro_dps Undefined 16384
                (store_with ICM42688_ACCEL_FS_2G ICM42688_GYRO_FS_2000))
     = outputs (icm42688_gyro_dps Undefined 16384 store_other)
  /\ st_cfg {| st_cfg := st_cfg store_other; st_whole := 9; st_frac := 806650 |}
     = st_cfg store_other.
Proof.
  destruct (converters_frame_and_determinism Undefined 3141592 16384 store_other
              (store_with ICM42688_ACCEL_FS_2G ICM42688_GYRO_FS_2000))
    as [[_ [_ [Hframe _]]] _].
  destruct (converters_frame_and_determinism Undefined 3141592 16384
              (store_with ICM42688_ACCEL_FS_2G ICM42688_GYRO_FS_2000) store_other)
    as [_ [Ha [Hg _]]].
  split; [ split; reflexivity | ].
  split; [ apply (Ha eq_refl) | ].
  split; [ apply (Hg eq_refl) | ].
  apply Hframe. reflexivity.
Defined.

(** * Further properties of the converters *)

(** ** The pair as a truncated magnitude *)

Lemma quot_add_multiple (x y s : Z) :
  0 < s -> 0 <= x -> 0 <= y -> Z.quot (x * s + y) s = x + Z.quot y s.
Proof.
  intros Hs Hx Hy.
  rewrite !Z.quot_div_nonneg by nia.
  rewrite Z.div_add_l by lia. reflexivity.
Qed.

(** Whole part and micro part of a one-stage split add up to the magnitude
    in micro-units, truncated. *)
Lemma split_micro (a s : Z) :
  0 < s ->
  Z.abs (Z.quot a s) * 1000000
  + Z.quot ((Z.abs a - Z.abs (Z.quot a s) * s) * 1000000) s
  = Z.quot (Z.abs a * 1000000) s.
Proof.
  intros Hs.
  pose proof (abs_remainder_range a s Hs) as Hd.
  set (q := Z.abs (Z.quot a s)) in *.
  set (d := Z.abs a - q * s) in *.
  replace (Z.abs a * 1000000) with (q * 1000000 * s + d * 1000000)
    by (unfold d; ring).
  rewrite quot_add_multiple by lia. reflexivity.
Qed.

(** The same for a split against [s * 1000000] followed by a division of the
    remainder by [s]. *)
Lemma split_scaled (a s : Z) :
  0 < s ->
  Z.abs (Z.quot a (s * 1000000)) * 1000000
  + Z.quot (Z.abs a - Z.abs (Z.quot a (s * 1000000)) * (s * 1000000)) s
  = Z.quot (Z.abs a) s.
Proof.
  intros Hs.
  pose proof (abs_remainder_range a (s * 1000000) ltac:(lia)) as Hd.
  set (q := Z.abs (Z.quot a (s * 1000000))) in *.
  set (d := Z.abs a - q * (s * 1000000)) in *.
  replace (Z.abs a) with (q * 1000000 * s + d) by (unfold d; ring).
  rewrite quot_add_multiple by lia. reflexivity.
Qed.

(** ** Runs on the whole input domain *)

Section WideRuns.

Variable sem : overflow_semantics.

(** The deg/s converter wherever [in * 10] fits [int32_t]. *)
Lemma gyro_dps_run_wide (r : Z) (s0 : store) :
  let s := gyro_dps_sensitivity (gyro_fs (st_cfg s0)) in
  0 < s <= 20972 -> -214748364 <= r <= 214748364 ->
  icm42688_gyro_dps sem r s0
  = Ok (tt, {| st_cfg := st_cfg s0;
               st_whole := Z.quot (r * 10) s;
               st_frac := Z.quot ((Z.abs (r * 10) - Z.abs (Z.quot (r * 10) s) * s)
                                  * 1000000) s |}).
Proof.
  intros s Hs Hr.
  pose proof (quot_abs_le (r * 10) s ltac:(lia)) as Hq.
  pose proof (abs_remainder_range (r * 10) s ltac:(lia)) as Hd.
  pose proof (micro_of_remainder _ s ltac:(lia) Hd) as Hu.
  unfold icm42688_gyro_dps. step_mem. fold s.
  run_steps.
  reflexivity.
Qed.

(** The temperature converter wherever [in * 100] fits [int32_t]. *)
Lemma temp_c_run_wide (r : Z) (s0 : store) :
  -21474836 <= r <= 21474836 ->
  icm42688_temp_c sem r s0
  = Ok (tt, {| st_cfg := st_cfg s0;
               st_whole := Z.quot (r * 100) 13248 + 25;
               st_frac := Z.quot ((Z.abs (r * 100)
                                   - Z.abs (Z.quot (r * 100) 13248) * 13248)
                                  * 1000000) 13248 |}).
Proof.
  intros Hr.
  pose proof (quot_abs_le (r * 100) 13248 ltac:(lia)) as Hq.
  pose proof (abs_remainder_range (r * 100) 13248 ltac:(lia)) as Hd.
  pose proof (micro_of_remainder _ 13248 ltac:(lia) Hd) as Hu.
  unfold icm42688_temp_c. cbv zeta.
  run_steps.
  reflexivity.
Qed.

(** The m/s^2 converter on every [int32_t] input. *)
Lemma accel_ms_run_wide (r : Z) (s0 : store) :
  let s := accel_ms_sensitivity (accel_fs (st_cfg s0)) in
  2048 <= s <= 16384 -> INT32_MIN <= r <= INT32_MAX ->
  icm42688_accel_ms sem r s0
  = Ok (tt, {| st_cfg := st_cfg s0;
               st_whole := Z.quot (r * SENSOR_G) (s * 1000000);
               st_frac := Z.quot (Z.abs (r * SENSOR_G)
                                  - Z.abs (Z.quot (r * SENSOR_G) (s * 1000000))
                                    * s * 1000000) s |}).
Proof.
  intros s Hs Hr. unfold INT32_MIN, INT32_MAX in Hr.
  pose proof (quot_abs_le (r * SENSOR_G) (s * 1000000) ltac:(lia)) as Hq.
  pose proof (abs_remainder_range (r * SENSOR_G) (s * 1000000) ltac:(lia)) as Hd.
  rewrite Z.mul_assoc in Hd.
  pose proof (micro_of_scaled_remainder _ s ltac:(lia) Hd) as Hu.
  assert (0 <= Z.abs (Z.quot (r * SENSOR_G) (s * 1000000)) * s) as Hp
    by (apply Z.mul_nonneg_nonneg; lia).
  assert (Z.abs (Z.quot (r * SENSOR_G) (s * 1000000)) * 2048
          <= Z.abs (Z.quot (r * SENSOR_G) (s * 1000000)) * s) as Hlow
    by (apply Z.mul_le_mono_nonneg_l; lia).
  unfold icm42688_accel_ms. step_mem. fold s.
  unfold SENSOR_G in *.
  run_steps.
  reflexivity.
Qed.

(** The rad/s converter on every [int32_t] input, for a pi-scaled constant
    of at most 28 bits. *)
Lemma gyro_rads_run_wide (SENSOR_PI r : Z) (s0 : store) :
  let s := gyro_rads_sensitivity (gyro_fs (st_cfg s0)) in
  0 <= SENSOR_PI <= 268435456 ->
  164 <= s <= 20972 -> INT32_MIN <= r <= INT32_MAX ->
  icm42688_gyro_rads sem SENSOR_PI r s0
  = Ok (tt, {| st_cfg := st_cfg s0;
               st_whole := Z.quot (r * SENSOR_PI * 10) (s * 180 * 1000000);
               st_frac := Z.quot (Z.abs (r * SENSOR_PI * 10)
                                  - Z.abs (Z.quot (r * SENSOR_PI * 10) (s * 180 * 1000000))
                                    * s * 180 * 1000000) (s * 180) |}).
Proof.
  intros s Hpi Hs Hr. unfold INT32_MIN, INT32_MAX in Hr.
  assert (-2147483648 * SENSOR_PI <= r * SENSOR_PI <= 2147483647 * SENSOR_PI) as Ht by nia.
  pose proof (quot_abs_le (r * SENSOR_PI * 10) (s * 180 * 1000000) ltac:(lia)) as Hq.
  pose proof (abs_remainder_range (r * SENSOR_PI * 10) (s * 180 * 1000000) ltac:(lia)) as Hd.
  rewrite !Z.mul_assoc in Hd.
  pose proof (micro_of_scaled_remainder _ (s * 180) ltac:(lia) Hd) as Hu.
  assert (0 <= Z.abs (Z.quot (r * SENSOR_PI * 10) (s * 180 * 1000000)) * s) as Hp
    by (apply Z.mul_nonneg_nonneg; lia).
  assert (Z.abs (Z.quot (r * SENSOR_PI * 10) (s * 180 * 1000000)) * 164
          <= Z.abs (Z.quot (r * SENSOR_PI * 10) (s * 180 * 1000000)) * s) as Hlow
    by (apply Z.mul_le_mono_nonneg_l; lia).
  unfold icm42688_gyro_rads. step_mem. fold s.
  run_steps.
  reflexivity.
Qed.

End WideRuns.

Lemma accel_ms_sensitivity_range fs :
  accel_fs_enumerated fs = true -> 2048 <= accel_ms_sensitivity fs <= 16384.
Proof. intros H. each_accel_fs H; vm_compute; intuition discriminate. Qed.

Lemma gyro_rads_sensitivity_range fs :
  gyro_fs_enumerated fs = true -> 164 <= gyro_rads_sensitivity fs <= 20972.
Proof. intros H. each_gyro_fs H; vm_compute; intuition discriminate. Qed.


(** The temperature converter as compiled: [in * 100] is reduced to 32 bits. *)
Lemma temp_c_run_Wraps (r : Z) (s0 : store) :
  let in100 := wrap32 (r * 100) in
  icm42688_temp_c Wraps r s0
  = Ok (tt, {| st_cfg := st_cfg s0;
               st_whole := Z.quot in100 13248 + 25;
               st_frac := Z.quot ((Z.abs in100 - Z.abs (Z.quot in100 13248) * 13248)
                                  * 1000000) 13248 |}).
Proof.
  intros in100.
  pose proof (wrap32_range (r * 100)) as Hw. fold in100 in Hw.
  pose proof (quot_abs_le in100 13248 ltac:(lia)) as Hq.
  pose proof (abs_remainder_range in100 13248 ltac:(lia)) as Hd.
  pose proof (micro_of_remainder _ 13248 ltac:(lia) Hd) as Hu.
  unfold icm42688_temp_c. cbv zeta.
  unfold mul32 at 1. rewrite (bind_eval_ok _ _ _ _ (signed32_Wraps_eq _)). fold in100.
  run_steps.
  reflexivity.
Qed.

(** ** Input domains *)

(** X1: for every enumerated gyroscope selector and every input whose tenfold
    fits [int32_t] (from -214748364 to 214748364, which covers 16-bit and
    20-bit samples), the deg/s converter yields the whole part
    (in * 10) / sensitivity by truncating division and as micro part the
    remainder of that division on absolute values, scaled by 1000000 and
    divided by the sensitivity; the micro part is in [0, 1000000). *)
Theorem gyro_dps_exact_where_in10_fits
  (sem : overflow_semantics) (r : Z) (s0 : store) :
  gyro_fs_enumerated (gyro_fs (st_cfg s0)) = true ->
  -214748364 <= r <= 214748364 ->
  let s := gyro_dps_sensitivity (gyro_fs (st_cfg s0)) in
  let whole := Z.quot (r * 10) s in
  let remainder := Z.abs (r * 10) - Z.abs whole * s in
  outputs (icm42688_gyro_dps sem r s0) = Ok (whole, Z.quot (remainder * 1000000) s)
  /\ remainder = Z.rem (Z.abs (r * 10)) s
  /\ 0 <= Z.quot (remainder * 1000000) s < 1000000.
Proof.
  intros Hfs Hr s whole remainder.
  pose proof (gyro_dps_sensitivity_pos _ Hfs) as Hs. fold s in Hs.
  split; [ | split ].
  - unfold s. rewrite gyro_dps_run_wide by assumption. reflexivity.
  - apply abs_remainder. lia.
  - apply micro_of_remainder; [ lia | apply abs_remainder_range; lia ].
Qed.

Lemma gyro_dps_exact_where_in10_fits_witness :
  (gyro_fs_enumerated (gyro_fs (st_cfg store_other)) = true
   /\ -214748364 <= -524288 <= 214748364)
  /\ outputs (icm42688_gyro_dps Undefined (-524288) store_other) = Ok (-31968, 780487).
Proof.
  assert (Hr : -214748364 <= -524288 <= 214748364) by lia.
  split; [ exact (conj eq_refl Hr) | ].
  exact (proj1 (gyro_dps_exact_where_in10_fits Undefined (-524288) store_other eq_refl Hr)).
Defined.



(** X3: the temperature converter forms [in * 100] in 32 bits.  For inputs
    from -21474836 to 21474836 the product fits and the pair is exact; for any
    other input it overflows: with undefined overflow the call has no result,
    and as compiled it converts the wrapped product, which is not in * 100. *)
Theorem temp_c_in100_domain (r : Z) (s0 : store) :
  (-21474836 <= r <= 21474836 ->
   forall sem,
     outputs (icm42688_temp_c sem r s0)
     = Ok (Z.quot (r * 100) 13248 + 25,
           Z.quot ((Z.abs (r * 100) - Z.abs (Z.quot (r * 100) 13248) * 13248) * 1000000)
                  13248))
  /\ (r < -21474836 \/ 21474836 < r ->
      icm42688_temp_c Undefined r s0 = Fault SignedOverflow
      /\ wrap32 (r * 100) <> r * 100
      /\ outputs (icm42688_temp_c Wraps r s0)
         = Ok (Z.quot (wrap32 (r * 100)) 13248 + 25,
               Z.quot ((Z.abs (wrap32 (r * 100))
                        - Z.abs (Z.quot (wrap32 (r * 100)) 13248) * 13248) * 1000000)
                      13248)).
Proof.
  split.
  - intros Hr sem. rewrite temp_c_run_wide by assumption. reflexivity.
  - intros Hr. split; [ | split ].
    + unfold icm42688_temp_c. cbv zeta.
      apply bind_eval_fault. unfold mul32, signed32, in_int32.
      destruct Hr as [Hlo|Hhi].
      * assert (E : (INT32_MIN <=? r * 100) = false)
          by (apply Z.leb_gt; unfold INT32_MIN; lia).
        now rewrite E.
      * assert (E : (r * 100 <=? INT32_MAX) = false)
          by (apply Z.leb_gt; unfold INT32_MAX; lia).
        now rewrite E, andb_false_r.
    + pose proof (wrap32_range (r * 100)). int_range.
    + rewrite temp_c_run_Wraps. reflexivity.
Qed.

Lemma temp_c_in100_domain_witness :
  (-21474836 <= 21474836 <= 21474836 /\ (21474837 < -21474836 \/ 21474836 < 21474837))
  /\ outputs (icm42688_temp_c Undefined 21474836 store_other) = Ok (162123, 701690)
  /\ icm42688_temp_c Undefined 21474837 store_other = Fault SignedOverflow.
Proof.
  assert (Hin : -21474836 <= 21474836 <= 21474836) by lia.
  assert (Hout : 21474837 < -21474836 \/ 21474836 < 21474837) by (right; lia).
  split; [ exact (conj Hin Hout) | ].
  split.
  - exact (proj1 (temp_c_in100_domain 21474836 store_other) Hin Undefined).
  - exact (proj1 (proj2 (temp_c_in100_domain 21474837 store_other) Hout)).
Defined.

(** X4: for every enumerated accelerometer selector the m/s^2 converter is
    exact on every [int32_t] input: the product with the gravity constant is
    formed in 64 bits, the whole part fits [int32_t], and the micro part is in
    [0, 1000000). *)
Theorem accel_ms_exact_on_int32
  (sem : overflow_semantics) (r : Z) (s0 : store) :
  accel_fs_enumerated (accel_fs (st_cfg s0)) = true ->
  INT32_MIN <= r <= INT32_MAX ->
  let s := accel_ms_sensitivity (accel_fs (st_cfg s0)) in
  let whole := Z.quot (r * SENSOR_G) (s * 1000000) in
  let remainder := Z.abs (r * SENSOR_G) - Z.abs whole * s * 1000000 in
  outputs (icm42688_accel_ms sem r s0) = Ok (whole, Z.quot remainder s)
  /\ INT32_MIN <= whole <= INT32_MAX
  /\ 0 <= Z.quot remainder s < 1000000.
Proof.
  intros Hfs Hr s whole remainder.
  pose proof (accel_ms_sensitivity_range _ Hfs) as Hs. fold s in Hs.
  pose proof (abs_remainder_range (r * SENSOR_G) (s * 1000000) ltac:(lia)) as Hd.
  rewrite Z.mul_assoc in Hd. fold whole in Hd.
  split; [ | split ].
  - unfold s. rewrite accel_ms_run_wide by assumption. reflexivity.
  - assert (Z.abs whole * 2048 <= Z.abs whole * s)
      by (apply Z.mul_le_mono_nonneg_l; lia).
    unfold SENSOR_G in *. int_range.
  - apply micro_of_scaled_remainder; [ lia | exact Hd ].
Qed.

Lemma accel_ms_exact_on_int32_witness :
  (accel_fs_enumerated (accel_fs (st_cfg store_other)) = true
   /\ INT32_MIN <= INT32_MIN <= INT32_MAX)
  /\ outputs (icm42688_accel_ms Undefined INT32_MIN store_other) = Ok (-1285377, 228800).
Proof.
  assert (Hr : INT32_MIN <= INT32_MIN <= INT32_MAX) by (unfold INT32_MIN, INT32_MAX; lia).
  split; [ exact (conj eq_refl Hr) | ].
  exact (proj1 (accel_ms_exact_on_int32 Undefined INT32_MIN store_other eq_refl Hr)).
Defined.

(** X5: for every enumerated gyroscope selector and a non-negative pi-scaled
    constant of at most 28 bits, the rad/s converter is exact on every
    [int32_t] input: no product leaves the 64-bit range, the whole part fits
    [int32_t], and the micro part is in [0, 1000000). *)
Theorem gyro_rads_exact_on_int32
  (sem : overflow_semantics) (SENSOR_PI r : Z) (s0 : store) :
  0 <= SENSOR_PI <= 268435456 ->
  gyro_fs_enumerated (gyro_fs (st_cfg s0)) = true ->
  INT32_MIN <= r <= INT32_MAX ->
  let s := gyro_rads_sensitivity (gyro_fs (st_cfg s0)) in
  let whole := Z.quot (r * SENSOR_PI * 10) (s * 180 * 1000000) in
  let remainder := Z.abs (r * SENSOR_PI * 10) - Z.abs whole * s * 180 * 1000000 in
  outputs (icm42688_gyro_rads sem SENSOR_PI r s0) = Ok (whole, Z.quot remainder (s * 180))
  /\ INT32_MIN <= whole <= INT32_MAX
  /\ 0 <= Z.quot remainder (s * 180) < 1000000.
Proof.
  intros Hpi Hfs Hr s whole remainder.
  pose proof (gyro_rads_sensitivity_range _ Hfs) as Hs. fold s in Hs.
  pose proof (abs_remainder_range (r * SENSOR_PI * 10) (s * 180 * 1000000) ltac:(lia)) as Hd.
  rewrite !Z.mul_assoc in Hd. fold whole in Hd.
  split; [ | split ].
  - unfold s. rewrite gyro_rads_run_wide by assumption. reflexivity.
  - assert (Z.abs whole * 164 <= Z.abs whole * s)
      by (apply Z.mul_le_mono_nonneg_l; lia).
    unfold INT32_MIN, INT32_MAX in Hr.
    assert (-2147483648 * SENSOR_PI <= r * SENSOR_PI <= 2147483647 * SENSOR_PI) by nia.
    int_range.
  - apply micro_of_scaled_remainder; [ lia | exact Hd ].
Qed.

Lemma gyro_rads_exact_on_int32_witness :
  (0 <= 3141592 <= 268435456
   /\ gyro_fs_enumerated (gyro_fs (st_cfg store_other)) = true
   /\ INT32_MIN <= INT32_MAX <= INT32_MAX)
  /\ outputs (icm42688_gyro_rads Undefined 3141592 INT32_MAX store_other)
     = Ok (2285405, 638735).
Proof.
  assert (Hpi : 0 <= 3141592 <= 268435456) by lia.
  assert (Hr : INT32_MIN <= INT32_MAX <= INT32_MAX) by (unfold INT32_MIN, INT32_MAX; lia).
  split; [ exact (conj Hpi (conj eq_refl Hr)) | ].
  exact (proj1 (gyro_rads_exact_on_int32 Undefined 3141592 INT32_MAX store_other
                  Hpi eq_refl Hr)).
Defined.

(** ** Where the g converter is exact *)

Lemma accel_g_sensitivity_values fs :
  accel_fs_enumerated fs = true ->
  accel_g_sensitivity fs = 2048 \/ accel_g_sensitivity fs = 4096
  \/ accel_g_sensitivity fs = 8192 \/ accel_g_sensitivity fs = 16384.
Proof. intros H. each_accel_fs H; vm_compute; tauto. Qed.

(** Once the scaled remainder has wrapped, what reaches the micro-g cell is
    never the micro part. *)
Lemma wrapped_micro_differs (s d : Z) :
  s = 2048 \/ s = 4096 \/ s = 8192 \/ s = 16384 ->
  2147 < d < s ->
  cast_uint32 (Z.quot (wrap32 (d * 1000000)) s) <> Z.quot (d * 1000000) s.
Proof.
  unfold cast_uint32, wrap32.
  intros [ -> | [ -> | [ -> | -> ] ] ] Hd; Z.to_euclidean_division_equations; lia.
Qed.

(** X6: for every enumerated accelerometer selector and every raw sample the
    g converter is exact exactly when the remainder of in / sensitivity is at
    most 2147.  Up to there the pair is (in / sensitivity, remainder * 1000000
    / sensitivity) with the micro part in [0, 1000000), under either overflow
    semantics.  Above, the product remainder * 1000000 overflows [int]: with
    undefined overflow the call has no result, and as compiled the whole part
    is still in / sensitivity but the micro-g cell receives a value that is
    not the micro part. *)
Theorem accel_g_exact_up_to_remainder_2147 (r : Z) (s0 : store) :
  accel_fs_enumerated (accel_fs (st_cfg s0)) = true ->
  raw_sample r ->
  let s := accel_g_sensitivity (accel_fs (st_cfg s0)) in
  let whole := Z.quot r s in
  let remainder := Z.abs r - Z.abs whole * s in
  let micro := Z.quot (remainder * 1000000) s in
  (remainder <= 2147 ->
   0 <= micro < 1000000
   /\ forall sem, outputs (icm42688_accel_g sem r s0) = Ok (whole, micro))
  /\ (2147 < remainder ->
      icm42688_accel_g Undefined r s0 = Fault SignedOverflow
      /\ exists stored,
          outputs (icm42688_accel_g Wraps r s0) = Ok (whole, stored)
          /\ stored <> micro).
Proof.
  intros Hfs Hr s whole remainder micro.
  pose proof (accel_g_sensitivity_pos _ Hfs) as Hs. fold s in Hs.
  pose proof (abs_remainder_range r s ltac:(lia)) as Hd.
  fold whole in Hd. fold remainder in Hd.
  split.
  - intros Hfit. split.
    + apply micro_of_remainder; [ lia | exact Hd ].
    + intros sem. unfold s. rewrite accel_g_run; try assumption; try reflexivity.
      fold s. fold whole. fold remainder. int_range.
  - intros Hbig. split.
    + apply accel_g_overflow; try assumption.
      fold s. fold whole. fold remainder. int_range.
    + eexists. split.
      * unfold s. rewrite accel_g_run_Wraps by assumption. reflexivity.
      * apply wrapped_micro_differs; [ apply accel_g_sensitivity_values, Hfs | ].
        fold s. fold whole. fold remainder. lia.
Qed.

Lemma accel_g_exact_up_to_remainder_2147_witness :
  (accel_fs_enumerated (accel_fs (st_cfg store_other)) = true
   /\ raw_sample (-18531))
  /\ outputs (icm42688_accel_g Undefined (-18531) store_other) = Ok (-1, 131042).
Proof.
  assert (Hr : raw_sample (-18531)) by (unfold raw_sample; lia).
  split; [ exact (conj eq_refl Hr) | ].
  refine (proj2 (proj1 (accel_g_exact_up_to_remainder_2147 (-18531) store_other
                          eq_refl Hr) _) Undefined).
  vm_compute. discriminate.
Defined.

(** X7: among the enumerated accelerometer selectors, 16G is the only one at
    which the g converter is free of signed overflow on every raw sample: at
    16G the remainder stays below 2048, and at 2G, 4G and 8G the raw sample
    2148 already overflows. *)
Theorem accel_g_overflow_free_iff_16G (s0 : store) :
  accel_fs_enumerated (accel_fs (st_cfg s0)) = true ->
  (forall r, raw_sample r -> icm42688_accel_g Undefined r s0 <> Fault SignedOverflow)
  <-> accel_fs (st_cfg s0) = ICM42688_ACCEL_FS_16G.
Proof.
  intros Hfs. split.
  - intros Hsafe.
    pose proof (accel_g_sensitivity_values _ Hfs) as Hv.
    destruct (Z.eq_dec (accel_fs (st_cfg s0)) ICM42688_ACCEL_FS_16G) as [E|N];
      [ exact E | exfalso ].
    assert (Hs : accel_g_sensitivity (accel_fs (st_cfg s0)) = 4096
                 \/ accel_g_sensitivity (accel_fs (st_cfg s0)) = 8192
                 \/ accel_g_sensitivity (accel_fs (st_cfg s0)) = 16384).
    { apply accel_fs_enumerated_cases in Hfs.
      destruct Hfs as [E|[E|[E|E]]]; [ contradiction | | | ];
        rewrite E; vm_compute; tauto. }
    apply (Hsafe 2148); [ unfold raw_sample; lia | ].
    apply accel_g_overflow; [ lia | unfold raw_sample; lia | ].
    destruct Hs as [ -> | [ -> | -> ] ]; vm_compute; reflexivity.
  - intros E r Hr Hfault.
    rewrite accel_g_run in Hfault; try assumption; try discriminate;
      rewrite E; change (accel_g_sensitivity ICM42688_ACCEL_FS_16G) with 2048.
    + lia.
    + pose proof (abs_remainder_range r 2048 ltac:(lia)). int_range.
Qed.

Lemma accel_g_overflow_free_iff_16G_witness :
  accel_fs_enumerated (accel_fs (st_cfg (store_with ICM42688_ACCEL_FS_16G
                                           ICM42688_GYRO_FS_2000))) = true
  /\ forall r, raw_sample r ->
       icm42688_accel_g Undefined r
         (store_with ICM42688_ACCEL_FS_16G ICM42688_GYRO_FS_2000)
       <> Fault SignedOverflow.
Proof.
  split; [ reflexivity | ].
  exact (proj2 (accel_g_overflow_free_iff_16G
                  (store_with ICM42688_ACCEL_FS_16G ICM42688_GYRO_FS_2000) eq_refl)
               eq_refl).
Defined.

(** ** What the pair encodes *)

(** X8: for a configuration whose full-scale fields hold enumerators and a raw
    sample, the pair of each exact converter encodes the magnitude of the
    reading truncated to micro-units: |whole| * 1000000 + micro is
    |in * 10| * 1000000 / sensitivity for deg/s, |in * SENSOR_G| / sensitivity
    for m/s^2, |in * SENSOR_PI * 10| / (sensitivity * 180) for rad/s, and for
    the temperature, with the offset 25 taken off the whole part,
    |in * 100| * 1000000 / 13248; every division truncates.  The two-stage
    split loses nothing against a single division. *)
Theorem pair_is_truncated_magnitude
  (sem : overflow_semantics) (SENSOR_PI r : Z) (s0 : store) :
  0 <= SENSOR_PI <= INT32_MAX ->
  cfg_in_range (st_cfg s0) = true ->
  raw_sample r ->
  (exists w m, outputs (icm42688_gyro_dps sem r s0) = Ok (w, m)
     /\ Z.abs w * 1000000 + m
        = Z.quot (Z.abs (r * 10) * 1000000) (gyro_dps_sensitivity (gyro_fs (st_cfg s0))))
  /\ (exists w m, outputs (icm42688_accel_ms sem r s0) = Ok (w, m)
        /\ Z.abs w * 1000000 + m
           = Z.quot (Z.abs (r * SENSOR_G)) (accel_ms_sensitivity (accel_fs (st_cfg s0))))
  /\ (exists w m, outputs (icm42688_gyro_rads sem SENSOR_PI r s0) = Ok (w, m)
        /\ Z.abs w * 1000000 + m
           = Z.quot (Z.abs (r * SENSOR_PI * 10))
                    (gyro_rads_sensitivity (gyro_fs (st_cfg s0)) * 180))
  /\ (exists w m, outputs (icm42688_temp_c sem r s0) = Ok (w, m)
        /\ Z.abs (w - 25) * 1000000 + m = Z.quot (Z.abs (r * 100) * 1000000) 13248).
Proof.
  unfold cfg_in_range. intros Hpi Hcfg Hr.
  apply andb_true_iff in Hcfg as [Ha Hg].
  pose proof (accel_ms_sensitivity_pos _ Ha) as Ham.
  pose proof (gyro_dps_sensitivity_pos _ Hg) as Hgd.
  pose proof (gyro_rads_sensitivity_pos _ Hg) as Hgr.
  split; [ | split; [ | split ] ]; do 2 eexists.
  - rewrite gyro_dps_run by assumption. split; [ reflexivity | ].
    apply split_micro. lia.
  - rewrite accel_ms_run by assumption. split; [ reflexivity | ].
    rewrite <- (split_scaled (r * SENSOR_G)) by lia.
    now rewrite !Z.mul_assoc.
  - rewrite gyro_rads_run by assumption. split; [ reflexivity | ].
    rewrite <- (split_scaled (r * SENSOR_PI * 10)) by lia.
    now rewrite !Z.mul_assoc.
  - rewrite temp_c_run by assumption. split; [ reflexivity | ].
    cbn [st_whole st_frac].
    replace (Z.quot (r * 100) 13248 + 25 - 25) with (Z.quot (r * 100) 13248) by ring.
    apply split_micro. lia.
Qed.

Lemma pair_is_truncated_magnitude_witness :
  (0 <= 3141592 <= INT32_MAX
   /\ cfg_in_range (st_cfg store_other) = true
   /\ raw_sample (-1000))
  /\ exists w m, outputs (icm42688_gyro_dps Undefined (-1000) store_other) = Ok (w, m)
       /\ Z.abs w * 1000000 + m = 60975609.
Proof.
  assert (Hpi : 0 <= 3141592 <= INT32_MAX) by (unfold INT32_MAX; lia).
  assert (Hr : raw_sample (-1000)) by (unfold raw_sample; lia).
  split; [ exact (conj Hpi (conj eq_refl Hr)) | ].
  exact (proj1 (pair_is_truncated_magnitude Undefined 3141592 (-1000) store_other
                  Hpi eq_refl Hr)).
Defined.

(** X9: the sign of a reading is carried by the whole part alone.  For a
    configuration whose full-scale fields hold enumerators and an input from
    -32767 to 32767, negating the input negates the whole part of the deg/s,
    m/s^2 and rad/s converters and leaves the micro part as it is. *)
Theorem negated_input_negates_whole_only
  (sem : overflow_semantics) (SENSOR_PI r : Z) (s0 : store) :
  0 <= SENSOR_PI <= INT32_MAX ->
  cfg_in_range (st_cfg s0) = true ->
  -32767 <= r <= 32767 ->
  (exists w m, outputs (icm42688_gyro_dps sem r s0) = Ok (w, m)
     /\ outputs (icm42688_gyro_dps sem (- r) s0) = Ok (- w, m))
  /\ (exists w m, outputs (icm42688_accel_ms sem r s0) = Ok (w, m)
        /\ outputs (icm42688_accel_ms sem (- r) s0) = Ok (- w, m))
  /\ (exists w m, outputs (icm42688_gyro_rads sem SENSOR_PI r s0) = Ok (w, m)
        /\ outputs (icm42688_gyro_rads sem SENSOR_PI (- r) s0) = Ok (- w, m)).
Proof.
  unfold cfg_in_range. intros Hpi Hcfg Hr.
  apply andb_true_iff in Hcfg as [Ha Hg].
  pose proof (accel_ms_sensitivity_pos _ Ha) as Ham.
  pose proof (gyro_dps_sensitivity_pos _ Hg) as Hgd.
  pose proof (gyro_rads_sensitivity_pos _ Hg) as Hgr.
  assert (Hr1 : raw_sample r) by (unfold raw_sample; lia).
  assert (Hr2 : raw_sample (- r)) by (unfold raw_sample; lia).
  split; [ | split ]; do 2 eexists.
  - rewrite !gyro_dps_run by assumption. split; [ reflexivity | ].
    cbn [outputs st_whole st_frac].
    replace (- r * 10) with (- (r * 10)) by ring.
    rewrite Z.quot_opp_l, !Z.abs_opp by lia. reflexivity.
  - rewrite !accel_ms_run by assumption. split; [ reflexivity | ].
    cbn [outputs st_whole st_frac].
    replace (- r * SENSOR_G) with (- (r * SENSOR_G)) by ring.
    rewrite Z.quot_opp_l, !Z.abs_opp by lia. reflexivity.
  - rewrite !gyro_rads_run by assumption. split; [ reflexivity | ].
    cbn [outputs st_whole st_frac].
    replace (- r * SENSOR_PI * 10) with (- (r * SENSOR_PI * 10)) by ring.
    rewrite Z.quot_opp_l, !Z.abs_opp by lia. reflexivity.
Qed.

Lemma negated_input_negates_whole_only_witness :
  (0 <= 3141592 <= INT32_MAX
   /\ cfg_in_range (st_cfg store_other) = true
   /\ -32767 <= 1000 <= 32767)
  /\ exists w m, outputs (icm42688_gyro_dps Undefined 1000 store_other) = Ok (w, m)
       /\ outputs (icm42688_gyro_dps Undefined (- 1000) store_other) = Ok (- w, m).
Proof.
  assert (Hpi : 0 <= 3141592 <= INT32_MAX) by (unfold INT32_MAX; lia).
  assert (Hr : -32767 <= 1000 <= 32767) by lia.
  split; [ exact (conj Hpi (conj eq_refl Hr)) | ].
  exact (proj1 (negated_input_negates_whole_only Undefined 3141592 1000 store_other
                  Hpi eq_refl Hr)).
Defined.

(** X10: below one unit the sign of a reading is lost.  For an enumerated
    gyroscope selector and a non-zero input with |in| * 10 below the
    sensitivity, the deg/s converter yields the same pair for in and for -in:
    whole part 0 and a micro part that is not 0. *)
Theorem gyro_dps_sign_lost_below_one
  (sem : overflow_semantics) (r : Z) (s0 : store) :
  gyro_fs_enumerated (gyro_fs (st_cfg s0)) = true ->
  r <> 0 ->
  Z.abs r * 10 < gyro_dps_sensitivity (gyro_fs (st_cfg s0)) ->
  exists m,
    0 < m < 1000000
    /\ outputs (icm42688_gyro_dps sem r s0) = Ok (0, m)
    /\ outputs (icm42688_gyro_dps sem (- r) s0) = Ok (0, m).
Proof.
  intros Hfs Hnz Hsmall.
  pose proof (gyro_dps_sensitivity_pos _ Hfs) as Hs.
  set (s := gyro_dps_sensitivity (gyro_fs (st_cfg s0))) in *.
  assert (Hr1 : raw_sample r) by (unfold raw_sample; lia).
  assert (Hr2 : raw_sample (- r)) by (unfold raw_sample; lia).
  assert (Hq : Z.quot (r * 10) s = 0) by (apply Z.quot_small_iff; lia).
  assert (Hq' : Z.quot (- r * 10) s = 0) by (apply Z.quot_small_iff; lia).
  exists (Z.quot (Z.abs (r * 10) * 1000000) s).
  split; [ | split ].
  - split.
    + apply Z.quot_str_pos. nia.
    + apply Z.quot_lt_upper_bound; lia.
  - rewrite gyro_dps_run by assumption. cbn [outputs st_whole st_frac]. fold s.
    rewrite Hq. cbn [Z.abs Z.mul]. now rewrite Z.sub_0_r.
  - rewrite gyro_dps_run by assumption. cbn [outputs st_whole st_frac]. fold s.
    rewrite Hq'. cbn [Z.abs Z.mul]. rewrite Z.sub_0_r.
    replace (- r * 10) with (- (r * 10)) by ring. now rewrite Z.abs_opp.
Qed.

Lemma gyro_dps_sign_lost_below_one_witness :
  (gyro_fs_enumerated (gyro_fs (st_cfg store_other)) = true
   /\ -16 <> 0
   /\ Z.abs (-16) * 10 < gyro_dps_sensitivity (gyro_fs (st_cfg store_other)))
  /\ exists m, 0 < m < 1000000
       /\ outputs (icm42688_gyro_dps Undefined (-16) store_other) = Ok (0, m)
       /\ outputs (icm42688_gyro_dps Undefined (- -16) store_other) = Ok (0, m).
Proof.
  assert (Hnz : -16 <> 0) by lia.
  assert (Hs : Z.abs (-16) * 10 < gyro_dps_sensitivity (gyro_fs (st_cfg store_other)))
    by reflexivity.
  split; [ exact (conj eq_refl (conj Hnz Hs)) | ].
  exact (gyro_dps_sign_lost_below_one Undefined (-16) store_other eq_refl Hnz Hs).
Defined.

(** X11: the temperature pair mirrors about 25.  For an input whose hundredfold
    fits [int32_t], negating the input turns the whole part w into 50 - w and
    leaves the micro part as it is; for a non-zero input with |in| * 100 below
    13248 both in and -in yield whole part 25 and the same non-zero micro part,
    so a reading just below 25 degrees is reported like one just above. *)
Theorem temp_c_mirrors_about_25
  (sem : overflow_semantics) (r : Z) (s0 : store) :
  -21474836 <= r <= 21474836 ->
  exists w m,
    outputs (icm42688_temp_c sem r s0) = Ok (w, m)
    /\ outputs (icm42688_temp_c sem (- r) s0) = Ok (50 - w, m)
    /\ (r <> 0 -> Z.abs r * 100 < 13248 -> w = 25 /\ 0 < m).
Proof.
  intros Hr. do 2 eexists.
  rewrite !temp_c_run_wide by lia. cbn [outputs st_whole st_frac].
  split; [ reflexivity | split ].
  - replace (- r * 100) with (- (r * 100)) by ring.
    rewrite Z.quot_opp_l, !Z.abs_opp by lia.
    f_equal. f_equal. ring.
  - intros Hnz Hsmall.
    assert (Hq : Z.quot (r * 100) 13248 = 0) by (apply Z.quot_small_iff; lia).
    rewrite Hq. cbn [Z.abs Z.mul Z.add]. rewrite Z.sub_0_r.
    split; [ reflexivity | ].
    apply Z.quot_str_pos. lia.
Qed.

Lemma temp_c_mirrors_about_25_witness :
  -21474836 <= -3000 <= 21474836
  /\ exists w m,
       outputs (icm42688_temp_c Undefined (-3000) store_other) = Ok (w, m)
       /\ outputs (icm42688_temp_c Undefined (- -3000) store_other) = Ok (50 - w, m).
Proof.
  assert (Hr : -21474836 <= -3000 <= 21474836) by lia.
  split; [ exact Hr | ].
  destruct (temp_c_mirrors_about_25 Undefined (-3000) store_other Hr)
    as (w & m & H1 & H2 & _).
  exists w, m. exact (conj H1 H2).
Defined.

(** ** Converters in sequence *)

(** X12: a converter's pair does not depend on what ran before it on the same
    configuration record and output cells.  When any of the five converters
    has returned, leaving the store [s1], each converter run from [s1] yields
    the pair (or the fault) it yields from the original store: the first call
    leaves the configuration as it was, and nothing of what it left in the
    output cells reaches the second result. *)
Theorem converter_after_converter
  (sem : overflow_semantics) (SENSOR_PI r1 r2 : Z) (s0 s1 : store) :
  icm42688_accel_g sem r1 s0 = Ok (tt, s1)
  \/ icm42688_gyro_dps sem r1 s0 = Ok (tt, s1)
  \/ icm42688_accel_ms sem r1 s0 = Ok (tt, s1)
  \/ icm42688_gyro_rads sem SENSOR_PI r1 s0 = Ok (tt, s1)
  \/ icm42688_temp_c sem r1 s0 = Ok (tt, s1) ->
  outputs (icm42688_accel_g sem r2 s1) = outputs (icm42688_accel_g sem r2 s0)
  /\ outputs (icm42688_gyro_dps sem r2 s1) = outputs (icm42688_gyro_dps sem r2 s0)
  /\ outputs (icm42688_accel_ms sem r2 s1) = outputs (icm42688_accel_ms sem r2 s0)
  /\ outputs (icm42688_gyro_rads sem SENSOR_PI r2 s1)
     = outputs (icm42688_gyro_rads sem SENSOR_PI r2 s0)
  /\ outputs (icm42688_temp_c sem r2 s1) = outputs (icm42688_temp_c sem r2 s0).
Proof.
  intros Hfirst.
  assert (Hcfg : st_cfg s1 = st_cfg s0).
  { destruct Hfirst as [H|[H|[H|[H|H]]]].
    - exact (accel_g_keeps_cfg _ _ _ _ _ H).
    - exact (gyro_dps_keeps_cfg _ _ _ _ _ H).
    - exact (accel_ms_keeps_cfg _ _ _ _ _ H).
    - exact (gyro_rads_keeps_cfg _ _ _ _ _ _ H).
    - exact (temp_c_keeps_cfg _ _ _ _ _ H). }
  split; [ | split; [ | split; [ | split ] ] ].
  - apply accel_g_reads_accel_fs. now rewrite Hcfg.
  - apply gyro_dps_reads_gyro_fs. now rewrite Hcfg.
  - apply accel_ms_reads_accel_fs. now rewrite Hcfg.
  - apply gyro_rads_reads_gyro_fs. now rewrite Hcfg.
  - apply temp_c_reads_nothing.
Qed.

Lemma converter_after_converter_witness :
  icm42688_accel_ms Undefined 16384 store_other
  = Ok (tt, {| st_cfg := st_cfg store_other; st_whole := 9; st_frac := 806650 |})
  /\ outputs (icm42688_gyro_dps Undefined (-1000)
                {| st_cfg := st_cfg store_other; st_whole := 9; st_frac := 806650 |})
     = outputs (icm42688_gyro_dps Undefined (-1000) store_other).
Proof.
  assert (H : icm42688_accel_ms Undefined 16384 store_other
              = Ok (tt, {| st_cfg := st_cfg store_other;
                           st_whole := 9; st_frac := 806650 |})) by reflexivity.
  split; [ exact H | ].
  exact (proj1 (proj2 (converter_after_converter Undefined 3141592 16384 (-1000)
                         store_other _ (or_intror (or_intror (or_introl H)))))).
Defined.

(** ** Order *)

Lemma nonneg_split_micro (a s : Z) :
  0 < s -> 0 <= a ->
  Z.quot a s * 1000000 + Z.quot ((Z.abs a - Z.abs (Z.quot a s) * s) * 1000000) s
  = Z.quot (a * 1000000) s.
Proof.
  intros Hs Ha.
  pose proof (split_micro a s Hs) as E.
  rewrite (Z.abs_eq (Z.quot a s)) in * by (apply Z.quot_pos; lia).
  now rewrite (Z.abs_eq a) in * by lia.
Qed.

(** X13: conversion keeps the order of the inputs.  For an enumerated
    gyroscope selector and inputs r1 <= r2 whose tenfold fits [int32_t], the
    whole part of the deg/s converter for r1 is at most that for r2, and when
    r1 is not negative the pairs are ordered as numbers:
    whole1 * 1000000 + micro1 <= whole2 * 1000000 + micro2. *)
Theorem gyro_dps_monotone
  (sem : overflow_semantics) (r1 r2 : Z) (s0 : store) :
  gyro_fs_enumerated (gyro_fs (st_cfg s0)) = true ->
  -214748364 <= r1 -> r1 <= r2 -> r2 <= 214748364 ->
  exists w1 m1 w2 m2,
    outputs (icm42688_gyro_dps sem r1 s0) = Ok (w1, m1)
    /\ outputs (icm42688_gyro_dps sem r2 s0) = Ok (w2, m2)
    /\ w1 <= w2
    /\ (0 <= r1 -> w1 * 1000000 + m1 <= w2 * 1000000 + m2).
Proof.
  intros Hfs Hlo Hle Hhi.
  pose proof (gyro_dps_sensitivity_pos _ Hfs) as Hs.
  do 4 eexists.
  rewrite !gyro_dps_run_wide by lia. cbn [outputs st_whole st_frac].
  split; [ reflexivity | split; [ reflexivity | split ] ].
  - apply Z.quot_le_mono; lia.
  - intros Hpos.
    rewrite !nonneg_split_micro by lia.
    apply Z.quot_le_mono; lia.
Qed.

Lemma gyro_dps_monotone_witness :
  (gyro_fs_enumerated (gyro_fs (st_cfg store_other)) = true
   /\ -214748364 <= 1000 /\ 1000 <= 1001 /\ 1001 <= 214748364)
  /\ exists w1 m1 w2 m2,
       outputs (icm42688_gyro_dps Undefined 1000 store_other) = Ok (w1, m1)
       /\ outputs (icm42688_gyro_dps Undefined 1001 store_other) = Ok (w2, m2)
       /\ w1 <= w2
       /\ (0 <= 1000 -> w1 * 1000000 + m1 <= w2 * 1000000 + m2).
Proof.
  assert (H1 : -214748364 <= 1000) by lia.
  assert (H2 : 1000 <= 1001) by lia.
  assert (H3 : 1001 <= 214748364) by lia.
  split; [ exact (conj eq_refl (conj H1 (conj H2 H3))) | ].
  exact (gyro_dps_monotone Undefined 1000 1001 store_other eq_refl H1 H2 H3).
Defined.
